(** * auto-faucet: the browsing session, its login sequencer and helpers

    A shallow embedding of [src/namespaces/Validate.ts],
    [src/namespaces/Strings.ts] and [src/obj/BrowsingSession.ts].

    JavaScript strings are [string]; a value that the TypeScript types call
    [string] but that may be [null] or [undefined] at run time is a
    [value].  The browser, the page and the clock are external: they are
    records of answers (an [outcome] per call), and every call the session
    makes is appended to a trace of [event]s. *)

From Stdlib Require Import String Ascii List Bool Arith Lia.
Import ListNotations.
Open Scope string_scope.

(** ** JavaScript values that reach the helpers *)

Inductive value : Type :=
| VNull
| VUndefined
| VStr (s : string).

(** [String(v)], the conversion applied by [+] and by [String.prototype.replace]. *)
Definition toString (v : value) : string :=
  match v with
  | VNull => "null"
  | VUndefined => "undefined"
  | VStr s => s
  end.

Definition value_eq_dec (a b : value) : {a = b} + {a <> b}.
Proof. decide equality. apply string_dec. Defined.

(** ** Validate.ts *)

Module Validate.

(** [value === null || value === undefined || value === ""] *)
Definition isNullEmpty (v : value) : bool :=
  match v with
  | VNull => true
  | VUndefined => true
  | VStr s => String.eqb s ""
  end.

(** [for (const value of values) { if (...) return false; } return true;] *)
Fixpoint nonNullEmpty (values : list value) : bool :=
  match values with
  | [] => true
  | v :: rest => if isNullEmpty v then false else nonNullEmpty rest
  end.

End Validate.

(** ** Strings.ts *)

Module Strings.

(** [\d]: an ASCII decimal digit (code 48 to 57), with its numeric value. *)
Definition digit (c : ascii) : option nat :=
  let code := nat_of_ascii c in
  if Nat.leb 48 code && Nat.leb code 57 then Some (code - 48) else None.

Fixpoint decimal (acc : nat) (ds : string) : nat :=
  match ds with
  | EmptyString => acc
  | String c rest =>
      match digit c with
      | Some d => decimal (10 * acc + d) rest
      | None => acc
      end
  end.

(** [args[number]] where [number] is the captured digit string: a
    property lookup by key.  Only a canonical array index ("0", or digits
    without a leading zero) names an element; any other key, and an index
    past the end, yields [undefined]. *)
Definition lookup (args : list value) (number : string) : value :=
  match number with
  | EmptyString => VUndefined
  | String "0"%char EmptyString => nth 0 args VUndefined
  | String "0"%char _ => VUndefined
  | _ => nth (decimal 0 number) args VUndefined
  end.

(** The callback of [replace]:
    [typeof args[number] != 'undefined' ? args[number] : match]. *)
Definition replacement (args : list value) (number : string) : string :=
  match lookup args number with
  | VUndefined => "{" ++ number ++ "}"
  | v => toString v
  end.

(** [str.replace(/{(\d+)}/g, callback)] as a one-pass scanner.  [pending]
    is [Some ds] while the text read since the last unmatched "{" is ds, a
    run of digits; the replacement text is never scanned again. *)
Fixpoint scan (args : list value) (pending : option string) (str : string) : string :=
  match str with
  | EmptyString =>
      match pending with
      | None => ""
      | Some ds => "{" ++ ds
      end
  | String c rest =>
      match pending with
      | None =>
          if Ascii.eqb c "{" then scan args (Some "") rest
          else String c (scan args None rest)
      | Some ds =>
          if Ascii.eqb c "{" then ("{" ++ ds) ++ scan args (Some "") rest
          else if Ascii.eqb c "}" then
            match ds with
            | EmptyString => "{}" ++ scan args None rest
            | _ => replacement args ds ++ scan args None rest
            end
          else
            match digit c with
            | Some _ => scan args (Some (ds ++ String c "")) rest
            | None => ("{" ++ ds) ++ String c (scan args None rest)
            end
      end
  end.

Definition format (str : string) (args : list value) : string :=
  scan args None str.

End Strings.

(** ** BrowsingSession.ts: logging *)

Definition basicLogFormat : string := "[BrowsingSession-{0}] [{1}] [{2}] {3}".

(** [level?: "info" | "warn" | "error"] *)
Inductive level : Type := info | warn | error.

(** The console method a line is written with. *)
Inductive channel : Type := console_log | console_warn | console_error.

(** One call of [log], given the reading [time] of
    [new Date().toLocaleTimeString()]: the console method and the line. *)
Definition logLine (time message from : string) (lvl : option level) : channel * string :=
  match lvl with
  | Some warn =>
      (console_warn, Strings.format basicLogFormat [VStr "WARN"; VStr time; VStr from; VStr message])
  | Some error =>
      (console_error, Strings.format basicLogFormat [VStr "ERROR"; VStr time; VStr from; VStr message])
  | _ =>
      (console_log, Strings.format basicLogFormat [VStr "LOG"; VStr time; VStr from; VStr message])
  end.

(** ** BrowsingSession.ts: the outside world

    A promise ends fulfilled, rejected, or never settles.  The same three
    cases describe an awaited call: it returns, throws, or never comes
    back. *)

Inductive outcome (A : Type) : Type :=
| Fulfilled (a : A)
| Rejected (reason : string)
| Pending.

Arguments Fulfilled {A} a.
Arguments Rejected {A} reason.
Arguments Pending {A}.

(** What [page.solveRecaptchas()] delivers; only its presence matters to
    the session. *)
Record SolveRecaptchasResult : Type := {
  captchas : nat;
  solved : nat
}.

(** The answers of a puppeteer page.  Within one session every method is
    called at most once per argument, so an answer per argument describes
    any page. *)
Record Page : Type := {
  goto : string -> outcome unit;
  waitForNavigation : option string -> outcome unit;
  click : string -> outcome unit;
  type : string -> value -> outcome unit;
  solveRecaptchas : outcome SolveRecaptchasResult;
  url : string
}.

Record Browser : Type := {
  newPage : outcome Page
}.

(** [extra.launch({ headless })] and the clock; the clock is read at each
    [log] call and indexed by the number of events recorded so far. *)
Record World : Type := {
  launch : bool -> outcome Browser;
  toLocaleTimeString : nat -> string
}.

(** ** BrowsingSession.ts: data *)

Record CaptchaOptions : Type := {
  id : value;
  token : value;
  visualFeedback : option bool
}.

Record LoginOptions : Type := {
  username : value;
  password : value
}.

Inductive LoginResults : Type :=
| LOGIN_SUCCESS
| USERNAME_FIELD_RELATED
| PASSWORD_FIELD_RELATED
| CAPTCHA_FIELD_RELATED
| INVALID_CREDENTIALS
| PAGE_OTHER_ERROR.

(** The string literal each member of the union type is. *)
Definition resultName (r : LoginResults) : string :=
  match r with
  | LOGIN_SUCCESS => "LOGIN_SUCCESS"
  | USERNAME_FIELD_RELATED => "USERNAME_FIELD_RELATED"
  | PASSWORD_FIELD_RELATED => "PASSWORD_FIELD_RELATED"
  | CAPTCHA_FIELD_RELATED => "CAPTCHA_FIELD_RELATED"
  | INVALID_CREDENTIALS => "INVALID_CREDENTIALS"
  | PAGE_OTHER_ERROR => "PAGE_OTHER_ERROR"
  end.

Definition allLoginResults : list LoginResults :=
  [LOGIN_SUCCESS; USERNAME_FIELD_RELATED; PASSWORD_FIELD_RELATED;
   CAPTCHA_FIELD_RELATED; INVALID_CREDENTIALS; PAGE_OTHER_ERROR].

(** The member of the enumeration a string names, if any. *)
Definition resultOfName (name : string) : option LoginResults :=
  find (fun r => String.eqb (resultName r) name) allLoginResults.

(** The fields of the class. *)
Record BrowsingSession : Type := {
  loginOptions : LoginOptions;
  session : option Browser;
  page : option Page;
  captchaOptions : option CaptchaOptions;
  debug : bool
}.

(** Everything the session does that is visible outside it, in program
    order.  [Resolve] and [Reject] are the calls of the two functions the
    promise of [login] hands to its executor; [Call] marks the entry into a
    method. *)
Inductive event : Type :=
| Console (ch : channel) (line : string)
| UsePlugin (providerId providerToken : value) (visual : bool)
| Call (method : string)
| Launch (headless : bool)
| NewPage
| Goto (target : string)
| WaitForNavigation (waitUntil : option string)
| Click (selector : string)
| TypeText (selector : string) (text : value)
| SolveRecaptchas
| Url
| Resolve (r : LoginResults)
| Reject (reason : string).

(** The object, the trace, and the state of the promise created by the
    call of [login] in progress. *)
Record state : Type := {
  this : BrowsingSession;
  trace : list event;
  promise : outcome LoginResults
}.

Definition record (e : event) (s : state) : state :=
  {| this := this s; trace := trace s ++ [e]; promise := promise s |}.

Definition setSession (b : Browser) (s : state) : state :=
  {| this := {| loginOptions := loginOptions (this s);
                session := Some b;
                page := page (this s);
                captchaOptions := captchaOptions (this s);
                debug := debug (this s) |};
     trace := trace s; promise := promise s |}.

Definition setPage (pg : Page) (s : state) : state :=
  {| this := {| loginOptions := loginOptions (this s);
                session := session (this s);
                page := Some pg;
                captchaOptions := captchaOptions (this s);
                debug := debug (this s) |};
     trace := trace s; promise := promise s |}.

(** A promise keeps its first settlement; later calls of [resolve] and
    [reject] change nothing. *)
Definition settleWith (o : outcome LoginResults) (s : state) : state :=
  {| this := this s; trace := trace s;
     promise := match promise s with
                | Pending => o
                | settled => settled
                end |}.

(** ** Asynchronous code

    An [async] body is a state transformer that ends in an [outcome];
    [await p; k] and [p.then(k)] are [bind], [p.catch(h)] is [catch].  A
    pending promise stops the body for good. *)

Definition Async (A : Type) : Type := state -> outcome A * state.

Definition ret {A} (a : A) : Async A := fun s => (Fulfilled a, s).

Definition bind {A B} (p : Async A) (k : A -> Async B) : Async B :=
  fun s =>
    match p s with
    | (Fulfilled a, s') => k a s'
    | (Rejected e, s') => (Rejected e, s')
    | (Pending, s') => (Pending, s')
    end.

Definition catch {A} (p : Async A) (h : string -> Async A) : Async A :=
  fun s =>
    match p s with
    | (Rejected e, s') => h e s'
    | r => r
    end.

Declare Scope async_scope.
Delimit Scope async_scope with async.
Notation "x <- p ;; k" := (bind p (fun x => k))
  (at level 61, p at next level, right associativity) : async_scope.
Notation "p ;; k" := (bind p (fun _ => k))
  (at level 61, right associativity) : async_scope.
Open Scope async_scope.

Definition emit (e : event) : Async unit :=
  fun s => (Fulfilled tt, record e s).

(** A call into the outside world: it is recorded and its answer awaited. *)
Definition perform {A} (e : event) (answer : outcome A) : Async A :=
  fun s => (answer, record e s).

(** [this.page?. ...]: with no page the whole chain is skipped and is
    [undefined]. *)
Definition onPage (k : Page -> Async unit) : Async unit :=
  fun s =>
    match page (this s) with
    | Some pg => k pg s
    | None => (Fulfilled tt, s)
    end.

(** [Promise.all([a, b])]: both calls are started, in order; a rejection
    of either rejects the whole. *)
Definition promiseAll (a b : Async unit) : Async unit :=
  fun s =>
    let (ra, s1) := a s in
    let (rb, s2) := b s1 in
    (match ra, rb with
     | Rejected e, _ => Rejected e
     | _, Rejected e => Rejected e
     | Pending, _ => Pending
     | _, Pending => Pending
     | Fulfilled _, Fulfilled _ => Fulfilled tt
     end, s2).

(** A call that is not awaited: the caller goes on whatever becomes of
    it.  The trace keeps what the call does, also after the caller has
    returned. *)
Definition detach (p : Async unit) : Async unit :=
  fun s => (Fulfilled tt, snd (p s)).

(** [===] on the values modelled. *)
Definition strictEq (a b : value) : bool :=
  if value_eq_dec a b then true else false.

(** ** BrowsingSession.ts: the methods *)

Definition dashboard : string := "https://autofaucet.org/dashboard".

Section Session.

Variable w : World.

(** [log(message, from, level)] *)
Definition log (message from : string) (lvl : option level) : Async unit :=
  fun s =>
    let (ch, line) := logLine (toLocaleTimeString w (length (trace s))) message from lvl in
    emit (Console ch line) s.

(** [resolve(r)] and [reject(reason)] of the promise of [login]. *)
Definition resolve (r : LoginResults) : Async unit :=
  fun s => (Fulfilled tt, settleWith (Fulfilled r) (record (Resolve r) s)).

Definition reject (reason : string) : Async unit :=
  fun s => (Fulfilled tt, settleWith (Rejected reason) (record (Reject reason) s)).

(** [solveCaptchas(page, captchaOptions)], lines 175-195.  The local
    [result] starts [undefined] ([None]) and is assigned only by the
    [then] of the capmonster branch. *)
Definition solveCaptchas (pg : option Page) (options : option CaptchaOptions)
  : Async (option SolveRecaptchasResult) :=
  match options with
  | Some c =>
      if strictEq (id c) (VStr "capmonster") then
        log "Solving captcha with CapMonster" "CaptchaSolver" (Some info) ;;
        match pg with
        | Some p =>
            catch (res <- perform SolveRecaptchas (solveRecaptchas p) ;; ret (Some res))
                  (fun err => log err "CaptchaSolver" (Some error) ;; ret None)
        | None => ret None
        end
      else if strictEq (id c) (VStr "2captcha") then
        ret None
      else
        log "Invalid captcha provider specified" "CaptchaSolver" (Some error) ;;
        ret None
  | None => ret None
  end.

(** [this.page?.click(sel).then(async () => await this.page?.type(sel, text))] *)
Definition fillField (selector : string) (text : value) (pg : Page) : Async unit :=
  perform (Click selector) (click pg selector) ;;
  onPage (fun pg' => perform (TypeText selector text) (type pg' selector text)).

(** Lines 155-156: announce the solution, then submit the form and wait
    for the navigation it starts. *)
Definition announceAndSubmit : Async unit :=
  (fun s =>
     log ("Successfully solved captcha! (Provider: "
          ++ match captchaOptions (this s) with
             | Some c => toString (id c)
             | None => "undefined"
             end
          ++ ")") "CaptchaSolver" (Some info) s) ;;
  promiseAll
    (onPage (fun pg => perform (WaitForNavigation None) (waitForNavigation pg None)))
    (onPage (fun pg => perform (Click "button[type=submit]") (click pg "button[type=submit]"))).

(** The [then] callback of line 151, with the [catch] of line 157 left
    to the caller.  Line 153 rejects and goes on. *)
Definition afterCaptcha (solution : option SolveRecaptchasResult) : Async unit :=
  match solution with
  | None => reject "Failed to solve captcha"
  | Some _ => ret tt
  end ;;
  announceAndSubmit.

(** Lines 140-142: type in the username, or reject if that failed. *)
Definition enterUsername : Async unit :=
  fun s =>
    onPage (fun pg =>
      catch (fillField "input[name=username]" (username (loginOptions (this s))) pg)
            (fun _ => reject "USERNAME_FIELD_RELATED")) s.

(** Lines 145-147: type in the password, or reject if that failed. *)
Definition enterPassword : Async unit :=
  fun s =>
    onPage (fun pg =>
      catch (fillField "input[name=password]" (password (loginOptions (this s))) pg)
            (fun _ => reject "PASSWORD_FIELD_RELATED")) s.

(** Lines 150-157: solve the captchas, submit, or reject if that threw. *)
Definition solveAndSubmit : Async unit :=
  fun s =>
    catch (solution <- solveCaptchas (page (this s)) (captchaOptions (this s)) ;;
           afterCaptcha solution)
          (fun _ => reject "CAPTCHA_FIELD_RELATED") s.

(** Line 159: [if (this.page?.url() === dashboard) resolve("LOGIN_SUCCESS")]. *)
Definition checkUrl : Async unit :=
  fun s =>
    match page (this s) with
    | Some pg =>
        (perform Url (Fulfilled (url pg)) ;;
         if String.eqb (url pg) dashboard then resolve LOGIN_SUCCESS else ret tt) s
    | None => (Fulfilled tt, s)
    end.

(** The [then] callback of line 137: lines 139-161, one statement after
    the other. *)
Definition afterIdle : Async unit :=
  enterUsername ;;
  enterPassword ;;
  solveAndSubmit ;;
  checkUrl ;;
  reject "INVALID_CREDENTIALS".

(** The executor handed to [new Promise], lines 136-165. *)
Definition executor : Async unit :=
  onPage (fun pg =>
    catch (perform (WaitForNavigation (Some "networkidle0"))
                   (waitForNavigation pg (Some "networkidle0")) ;;
           afterIdle)
          (fun _ => reject "PAGE_OTHER_ERROR")).

(** [login()]: a fresh promise, the executor run on it, and the promise
    as the caller awaits it.  A settlement does not stop the executor: it
    runs on to its end, and the trace lists all its events before those
    of the caller that awaited the promise. *)
Definition login : Async LoginResults :=
  fun s =>
    let s0 := {| this := this s; trace := trace s; promise := Pending |} in
    let s1 := snd (executor s0) in
    (promise s1, s1).

(** [run()], lines 111-128. *)
Definition run : Async unit :=
  emit (Call "run") ;;
  log "Starting browsing session" "BrowsingSession" (Some info) ;;
  browser <- (fun s => perform (Launch (negb (debug (this s))))
                               (launch w (negb (debug (this s)))) s) ;;
  (fun s => (Fulfilled tt, setSession browser s)) ;;
  log "Session started, continuing to open page" "BrowsingSession" (Some info) ;;
  pg <- perform NewPage (newPage browser) ;;
  (fun s => (Fulfilled tt, setPage pg s)) ;;
  catch (perform (Goto dashboard) (goto pg dashboard) ;;
         catch (result <- login ;;
                log ("Result for login attempt: " ++ resultName result) "Login" (Some info))
               (fun err => log err "Login" (Some error)))
        (fun err => log err "Page" (Some error)).

(** Lines 97-104 of the constructor. *)
Definition validateLoginAndRun : Async unit :=
  fun s =>
    if negb (Validate.nonNullEmpty [username (loginOptions (this s));
                                    password (loginOptions (this s))])
    then log "Invalid login options provided" "Login" (Some error) s
    else (log "Login options set, continuing to run browsing session" "Login" (Some info) ;;
          detach run) s.

(** The body of the constructor after the fields are set, lines 77-104. *)
Definition construct : Async unit :=
  fun s =>
    match captchaOptions (this s) with
    | Some c =>
        if negb (Validate.nonNullEmpty [id c; token c])
        then log "Invalid captcha options provided" "CaptchaSolver" (Some error) s
        else (emit (UsePlugin (id c) (token c)
                              (match visualFeedback c with Some b => b | None => false end)) ;;
              log "Captcha options set, continuing to validate login options"
                  "CaptchaSolver" (Some info) ;;
              validateLoginAndRun) s
    | None => validateLoginAndRun s
    end.

(** [new BrowsingSession(login, captcha, debug)]: the fields of lines
    70-74, then the body.  The result is what the caller gets (a
    [Rejected] would be an exception) and the session with all it did. *)
Definition constructor (l : LoginOptions) (captcha : option CaptchaOptions)
           (dbg : option bool) : outcome unit * state :=
  construct
    {| this := {| loginOptions := l;
                  session := None;
                  page := None;
                  captchaOptions := captcha;
                  debug := match dbg with Some b => b | None => false end |};
       trace := [];
       promise := Pending |}.

End Session.

(** ** Concrete sessions used in the examples *)

(** A page on which every call succeeds and which ends on [address]. *)
Definition pageAt (address : string) : Page :=
  {| goto := fun _ => Fulfilled tt;
     waitForNavigation := fun _ => Fulfilled tt;
     click := fun _ => Fulfilled tt;
     type := fun _ _ => Fulfilled tt;
     solveRecaptchas := Fulfilled {| captchas := 1; solved := 1 |};
     url := address |}.

(** The same page, except that one selector cannot be clicked. *)
Definition pageWithout (selector address : string) : Page :=
  {| goto := fun _ => Fulfilled tt;
     waitForNavigation := fun _ => Fulfilled tt;
     click := fun sel => if String.eqb sel selector
                         then Rejected ("No node found for selector: " ++ selector)
                         else Fulfilled tt;
     type := fun _ _ => Fulfilled tt;
     solveRecaptchas := Fulfilled {| captchas := 1; solved := 1 |};
     url := address |}.

(** A page on which everything succeeds but the solver, and which stays
    on the login form. *)
Definition pageUnsolved : Page :=
  {| goto := fun _ => Fulfilled tt;
     waitForNavigation := fun _ => Fulfilled tt;
     click := fun _ => Fulfilled tt;
     type := fun _ _ => Fulfilled tt;
     solveRecaptchas := Rejected "ERROR_KEY_DOES_NOT_EXIST";
     url := "https://autofaucet.org/login" |}.

(** A page on which everything succeeds except the wait for the navigation
    that the submit click starts: that wait times out. *)
Definition pageTimingOut (address : string) : Page :=
  {| goto := fun _ => Fulfilled tt;
     waitForNavigation := fun waitUntil =>
                            match waitUntil with
                            | Some _ => Fulfilled tt
                            | None => Rejected "TimeoutError: Navigation timeout of 30000 ms exceeded"
                            end;
     click := fun _ => Fulfilled tt;
     type := fun _ _ => Fulfilled tt;
     solveRecaptchas := Fulfilled {| captchas := 1; solved := 1 |};
     url := address |}.

Definition worldWith (pg : Page) : World :=
  {| launch := fun _ => Fulfilled {| newPage := Fulfilled pg |};
     toLocaleTimeString := fun _ => "12:00:00" |}.

(** The arguments of [main.ts]. *)
Definition mainLogin : LoginOptions := {| username := VStr ""; password := VStr "" |}.
Definition mainCaptcha : CaptchaOptions :=
  {| id := VStr "capmonster"; token := VStr ""; visualFeedback := None |}.

Definition someLogin : LoginOptions := {| username := VStr "alice"; password := VStr "secret" |}.
Definition capmonster : CaptchaOptions :=
  {| id := VStr "capmonster"; token := VStr "key"; visualFeedback := None |}.
Definition twoCaptcha : CaptchaOptions :=
  {| id := VStr "2captcha"; token := VStr "key"; visualFeedback := None |}.

(** A session as [run] leaves it before it calls [login]. *)
Definition sessionOn (pg : Page) (l : LoginOptions) (c : option CaptchaOptions) : state :=
  {| this := {| loginOptions := l;
                session := Some {| newPage := Fulfilled pg |};
                page := Some pg;
                captchaOptions := c;
                debug := false |};
     trace := [];
     promise := Pending |}.

(** ** The vocabulary of the specification *)

(** The log line format of the specification. *)
Definition lineOf (tag time from message : string) : string :=
  "[BrowsingSession-" ++ tag ++ "] [" ++ time ++ "] [" ++ from ++ "] " ++ message.

(** [text] occurs somewhere in [s]. *)
Fixpoint occursIn (text s : string) : bool :=
  String.prefix text s ||
  match s with
  | EmptyString => false
  | String _ rest => occursIn text rest
  end.

(** Some console line of the trace carries [message]. *)
Definition logged (message : string) (tr : list event) : bool :=
  existsb (fun e => match e with
                    | Console _ line => occursIn message line
                    | _ => false
                    end) tr.

(** A value that is missing: [null], [undefined] or the empty string. *)
Definition absent (v : value) : Prop :=
  v = VNull \/ v = VUndefined \/ v = VStr "".

(** The outcome a settled promise of [login] stands for: the value it was
    fulfilled with, or the member of the enumeration its rejection reason
    names. *)
Definition loginOutcome (o : outcome LoginResults) : option LoginResults :=
  match o with
  | Fulfilled r => Some r
  | Rejected reason => resultOfName reason
  | Pending => None
  end.

(** The calls of [resolve] and [reject] in a trace, in order. *)
Fixpoint settlements (tr : list event) : list (outcome LoginResults) :=
  match tr with
  | [] => []
  | Resolve r :: rest => Fulfilled r :: settlements rest
  | Reject reason :: rest => Rejected reason :: settlements rest
  | _ :: rest => settlements rest
  end.

(** The configuration part of the object. *)
Definition configuration (b : BrowsingSession)
  : LoginOptions * option CaptchaOptions * bool :=
  (loginOptions b, captchaOptions b, debug b).

(** The conditions on the page under which the steps of [login] go through. *)
Definition pageIdle (pg : Page) : Prop :=
  waitForNavigation pg (Some "networkidle0") = Fulfilled tt.

Definition fieldFilled (pg : Page) (selector : string) (text : value) : Prop :=
  click pg selector = Fulfilled tt /\ type pg selector text = Fulfilled tt.

Definition captchaSolved (pg : Page) (options : option CaptchaOptions) : Prop :=
  exists c res,
    options = Some c /\ id c = VStr "capmonster" /\ solveRecaptchas pg = Fulfilled res.

Definition formSubmitted (pg : Page) : Prop :=
  waitForNavigation pg None = Fulfilled tt /\ click pg "button[type=submit]" = Fulfilled tt.

(** The interaction with a field throws: at the click, or at the typing
    that follows a successful click. *)
Definition fieldFails (pg : Page) (selector : string) (text : value) : Prop :=
  (exists reason, click pg selector = Rejected reason)
  \/ (click pg selector = Fulfilled tt /\ exists reason, type pg selector text = Rejected reason).

(** [solveCaptchas] has nothing to return: no configuration, a provider
    other than capmonster, or a solver call that is rejected. *)
Definition captchaUnsolved (pg : Page) (options : option CaptchaOptions) : Prop :=
  match options with
  | None => True
  | Some c => id c <> VStr "capmonster" \/ exists reason, solveRecaptchas pg = Rejected reason
  end.

(** The calls of [resolve] and [reject] among the events. *)
Definition isSettle (e : event) : bool :=
  match e with
  | Resolve _ | Reject _ => true
  | _ => false
  end.

(** What a promise that was [before] becomes under the calls, taken in
    order: the first settlement stays. *)
Definition firstSettled (before : outcome LoginResults)
           (calls : list (outcome LoginResults)) : outcome LoginResults :=
  fold_left (fun now call => match now with Pending => call | settled => settled end)
            calls before.

(** An asynchronous body relates the state it starts in to the state it
    leaves by [R]. *)
Definition respects (R : state -> state -> Prop) {A} (p : Async A) : Prop :=
  forall s, R s (snd (p s)).

(** The configuration fields are the same after as before. *)
Definition keepsConfiguration (s s' : state) : Prop :=
  configuration (this s') = configuration (this s).

(** The object is untouched, the trace has grown by some events, and the
    promise is what the calls of [resolve] and [reject] among them make of
    it. *)
Definition settlesInOrder (s s' : state) : Prop :=
  exists evs,
    s' = {| this := this s;
            trace := trace s ++ evs;
            promise := firstSettled (promise s) (settlements evs) |}.

(** ** Further concrete sessions *)

(** A page that never reaches the idle network. *)
Definition pageNeverIdle : Page :=
  {| goto := fun _ => Fulfilled tt;
     waitForNavigation := fun _ => Rejected "TimeoutError: Navigation timeout of 30000 ms exceeded";
     click := fun _ => Fulfilled tt;
     type := fun _ _ => Fulfilled tt;
     solveRecaptchas := Fulfilled {| captchas := 0; solved := 0 |};
     url := "about:blank" |}.

(** A page that cannot be navigated. *)
Definition pageUnreachable : Page :=
  {| goto := fun _ => Rejected "net::ERR_NAME_NOT_RESOLVED";
     waitForNavigation := fun _ => Fulfilled tt;
     click := fun _ => Fulfilled tt;
     type := fun _ _ => Fulfilled tt;
     solveRecaptchas := Fulfilled {| captchas := 0; solved := 0 |};
     url := "about:blank" |}.

(** A session on which [run] was never called. *)
Definition freshSession (l : LoginOptions) (c : option CaptchaOptions) (d : bool) : state :=
  {| this := {| loginOptions := l; session := None; page := None;
                captchaOptions := c; debug := d |};
     trace := [];
     promise := Pending |}.

(** Worlds in which the browser cannot be launched, or opens no page. *)
Definition worldWithoutBrowser : World :=
  {| launch := fun _ => Rejected "Failed to launch the browser process";
     toLocaleTimeString := fun _ => "12:00:00" |}.

Definition worldWithoutPage : World :=
  {| launch := fun _ => Fulfilled {| newPage := Rejected "Target closed" |};
     toLocaleTimeString := fun _ => "12:00:00" |}.

(** ** Further vocabulary: strings, outcomes, events *)

(** The submission of line 156 throws: at the wait for the navigation or at
    the click on the submit button. *)
Definition submitFails (pg : Page) : Prop :=
  (exists e, waitForNavigation pg None = Rejected e)
  \/ (exists e, click pg "button[type=submit]" = Rejected e).


(** No character of the string is an opening brace. *)
Fixpoint braceFree (s : string) : bool :=
  match s with
  | EmptyString => true
  | String c rest => negb (Ascii.eqb c "{") && braceFree rest
  end.

(** Every character of the string is a decimal digit. *)
Fixpoint allDigits (s : string) : bool :=
  match s with
  | EmptyString => true
  | String c rest =>
      match Strings.digit c with
      | Some _ => allDigits rest
      | None => false
      end
  end.

(** The reasons [login] rejects its promise with. *)
Definition failureReasons : list string :=
  ["USERNAME_FIELD_RELATED"; "PASSWORD_FIELD_RELATED"; "Failed to solve captcha";
   "CAPTCHA_FIELD_RELATED"; "INVALID_CREDENTIALS"; "PAGE_OTHER_ERROR"].

(** What the executor of [login] may do on the session [b]: wait for the
    two navigations, click the three elements of the form, type each
    credential into its own field, call the solver, read the URL, log,
    resolve with LOGIN_SUCCESS on the dashboard URL, and reject with one of
    its reasons. *)
Definition loginEvent (b : BrowsingSession) (e : event) : Prop :=
  match e with
  | Console _ _ => True
  | WaitForNavigation waitUntil => waitUntil = Some "networkidle0" \/ waitUntil = None
  | Click selector =>
      In selector ["input[name=username]"; "input[name=password]"; "button[type=submit]"]
  | TypeText selector text =>
      (selector = "input[name=username]" /\ text = username (loginOptions b))
      \/ (selector = "input[name=password]" /\ text = password (loginOptions b))
  | SolveRecaptchas => True
  | Url => True
  | Resolve r => r = LOGIN_SUCCESS /\ exists pg, page b = Some pg /\ url pg = dashboard
  | Reject reason => In reason failureReasons
  | UsePlugin _ _ _ => False
  | Call _ => False
  | Launch _ => False
  | NewPage => False
  | Goto _ => False
  end.

(** The object is untouched, the promise follows the calls in order, and
    every event added is one [login] may cause on this session. *)
Definition staysOnPage (s s' : state) : Prop :=
  exists evs,
    s' = {| this := this s;
            trace := trace s ++ evs;
            promise := firstSettled (promise s) (settlements evs) |}
    /\ Forall (loginEvent (this s)) evs.

(** No call on the page stays without an answer. *)
Definition responsive (pg : Page) : Prop :=
  (forall waitUntil, waitForNavigation pg waitUntil <> Pending)
  /\ (forall selector, click pg selector <> Pending)
  /\ (forall selector text, type pg selector text <> Pending)
  /\ solveRecaptchas pg <> Pending.

(** Events that start nothing: no plugin registration, no entry into a
    method, no browser launch. *)
Definition quiet (e : event) : Prop :=
  match e with
  | UsePlugin _ _ _ => False
  | Call _ => False
  | Launch _ => False
  | _ => True
  end.

(** The trace has grown by quiet events only. *)
Definition addsQuiet (s s' : state) : Prop :=
  exists evs, trace s' = (trace s ++ evs)%list /\ Forall quiet evs.

(** The configuration lets the constructor go all the way to [run]. *)
Definition validLogin (l : LoginOptions) : Prop :=
  ~ absent (username l) /\ ~ absent (password l).

Definition validCaptcha (captcha : option CaptchaOptions) : Prop :=
  match captcha with
  | None => True
  | Some c => ~ absent (id c) /\ ~ absent (token c)
  end.

(** The states [run] passes through: after the launch call (lines
    113-115), after the call that opens the page (lines 115-119), and after
    the call that navigates it (lines 119-121). *)
Definition runStarted (w : World) (s : state) : state :=
  record (Launch (negb (debug (this s))))
    (record (Console console_log
               (lineOf "LOG" (toLocaleTimeString w (length (trace s) + 1))
                       "BrowsingSession" "Starting browsing session"))
       (record (Call "run") s)).

Definition runLaunched (w : World) (b : Browser) (s : state) : state :=
  record NewPage
    (record (Console console_log
               (lineOf "LOG" (toLocaleTimeString w (length (trace s) + 3))
                       "BrowsingSession" "Session started, continuing to open page"))
       (setSession b (runStarted w s))).

Definition runOpened (w : World) (b : Browser) (pg : Page) (s : state) : state :=
  record (Goto dashboard) (setPage pg (runLaunched w b s)).

(** What [run] does with the promise of [login], lines 124-125. *)
Definition reportLogin (w : World) (r : outcome LoginResults * state) : outcome unit * state :=
  match fst r with
  | Fulfilled result =>
      log w ("Result for login attempt: " ++ resultName result) "Login" (Some info) (snd r)
  | Rejected reason => log w reason "Login" (Some error) (snd r)
  | Pending => (Pending, snd r)
  end.

(** ** Validate.nonNullEmpty *)

Lemma isNullEmpty_false v :
  Validate.isNullEmpty v = false <-> v <> VNull /\ v <> VUndefined /\ v <> VStr "".
Proof.
  destruct v as [| | s]; simpl.
  - split; [discriminate | intros [H _]; now elim H].
  - split; [discriminate | intros [_ [H _]]; now elim H].
  - destruct (String.eqb_spec s "") as [-> | Hne].
    + split; [discriminate | intros [_ [_ H]]; now elim H].
    + split; [| reflexivity].
      intros _. repeat split; try discriminate.
      intros E. apply Hne. now injection E.
Qed.

(** C10: [nonNullEmpty] answers [true] exactly when no argument is [null],
    [undefined] or the empty string; with no argument at all it answers
    [true]. *)
Theorem nonNullEmpty_iff :
  (forall values,
      Validate.nonNullEmpty values = true <->
      Forall (fun v => v <> VNull /\ v <> VUndefined /\ v <> VStr "") values)
  /\ Validate.nonNullEmpty [] = true.
Proof.
  split; [| reflexivity].
  induction values as [| v rest IH]; simpl.
  - split; [constructor | reflexivity].
  - destruct (Validate.isNullEmpty v) eqn:E.
    + split; [discriminate |].
      intros H. inversion H as [| ? ? Hv _]; subst.
      apply isNullEmpty_false in Hv. congruence.
    + rewrite IH. split.
      * intros H. constructor; [now apply isNullEmpty_false | exact H].
      * intros H. now inversion H.
Qed.

Lemma isNullEmpty_true v : Validate.isNullEmpty v = true <-> absent v.
Proof.
  unfold absent. destruct v as [| | s]; simpl.
  - tauto.
  - tauto.
  - destruct (String.eqb_spec s "") as [-> | Hne].
    + tauto.
    + split; [discriminate |].
      intros [H | [H | H]]; try discriminate H. injection H as H. contradiction.
Qed.

Lemma nonNullEmpty_pair a b :
  Validate.nonNullEmpty [a; b] = false <-> absent a \/ absent b.
Proof.
  rewrite <- !isNullEmpty_true. simpl.
  destruct (Validate.isNullEmpty a), (Validate.isNullEmpty b); intuition congruence.
Qed.

(** ** Strings.format and the log line *)

Example format_two : Strings.format "{0}-{1}" [VStr "a"; VStr "b"] = "a-b".
Proof. reflexivity. Qed.

Example format_missing : Strings.format "{0} {7} {x} {01}" [VStr "a"; VStr "b"] = "a {7} {x} {01}".
Proof. reflexivity. Qed.

Example format_no_rescan : Strings.format "{0}" [VStr "{1}"; VStr "b"] = "{1}".
Proof. reflexivity. Qed.

Lemma append_empty_r (s : string) : s ++ "" = s.
Proof. induction s as [| c s IH]; simpl; [reflexivity | now rewrite IH]. Qed.

Lemma format_basicLogFormat tag time from message :
  Strings.format basicLogFormat [VStr tag; VStr time; VStr from; VStr message]
  = lineOf tag time from message.
Proof.
  unfold lineOf. cbn. now rewrite append_empty_r.
Qed.

Lemma logLine_lineOf time message from lvl :
  logLine time message from lvl =
  match lvl with
  | Some warn => (console_warn, lineOf "WARN" time from message)
  | Some error => (console_error, lineOf "ERROR" time from message)
  | _ => (console_log, lineOf "LOG" time from message)
  end.
Proof.
  destruct lvl as [[| |] |]; unfold logLine; now rewrite format_basicLogFormat.
Qed.

Lemma log_eq (w : World) (message from : string) (lvl : option level) (s : state) :
  log w message from lvl s =
  (Fulfilled tt,
   record (match lvl with
           | Some warn => Console console_warn
                            (lineOf "WARN" (toLocaleTimeString w (length (trace s))) from message)
           | Some error => Console console_error
                             (lineOf "ERROR" (toLocaleTimeString w (length (trace s))) from message)
           | _ => Console console_log
                    (lineOf "LOG" (toLocaleTimeString w (length (trace s))) from message)
           end) s).
Proof.
  unfold log. rewrite logLine_lineOf.
  destruct lvl as [[| |] |]; reflexivity.
Qed.

(** C8: whatever the message, the source and the level, [log] writes one
    line, [[BrowsingSession-<LEVEL>] [<time>] [<source>] <message>], where
    the level tag is WARN for warn, ERROR for error and LOG otherwise, and
    the time is the clock reading of the call. *)
Theorem log_line_format (w : World) (message from : string) (lvl : option level) (s : state) :
  log w message from lvl s =
  (Fulfilled tt,
   record (Console
             (match lvl with
              | Some warn => console_warn
              | Some error => console_error
              | _ => console_log
              end)
             ("[BrowsingSession-"
              ++ match lvl with
                 | Some warn => "WARN"
                 | Some error => "ERROR"
                 | _ => "LOG"
                 end
              ++ "] [" ++ toLocaleTimeString w (length (trace s))
              ++ "] [" ++ from ++ "] " ++ message)) s).
Proof.
  rewrite log_eq. destruct lvl as [[| |] |]; reflexivity.
Qed.

(** ** The constructor *)

Lemma validateLoginAndRun_invalid (w : World) (s : state) :
  Validate.nonNullEmpty [username (loginOptions (this s)); password (loginOptions (this s))]
  = false ->
  validateLoginAndRun w s =
  (Fulfilled tt,
   record (Console console_error
             (lineOf "ERROR" (toLocaleTimeString w (length (trace s))) "Login"
                     "Invalid login options provided")) s).
Proof.
  intros H. unfold validateLoginAndRun. rewrite H. simpl. now rewrite log_eq.
Qed.

(** C6: given a CAPTCHA configuration whose provider id or token is empty,
    [null] or [undefined], the constructor returns normally after a single
    action, the error line; the plugin is not registered, [run] is not
    entered and no browser is launched. *)
Theorem invalid_captcha_stops_construction
        (w : World) (l : LoginOptions) (c : CaptchaOptions) (dbg : option bool) :
  absent (id c) \/ absent (token c) ->
  let r := constructor w l (Some c) dbg in
  fst r = Fulfilled tt
  /\ trace (snd r) =
     [Console console_error
        (lineOf "ERROR" (toLocaleTimeString w 0) "CaptchaSolver"
                "Invalid captcha options provided")]
  /\ (forall i t v, ~ In (UsePlugin i t v) (trace (snd r)))
  /\ ~ In (Call "run") (trace (snd r))
  /\ (forall headless, ~ In (Launch headless) (trace (snd r))).
Proof.
  intros H r. subst r. apply nonNullEmpty_pair in H.
  unfold constructor, construct. cbn [captchaOptions this].
  rewrite H. cbn [negb]. rewrite log_eq. cbn.
  repeat split; try reflexivity; intros; intros [E | []]; discriminate E.
Qed.

Lemma invalid_captcha_stops_construction_witness :
  (absent (id mainCaptcha) \/ absent (token mainCaptcha))
  /\ fst (constructor (worldWith (pageAt dashboard)) mainLogin (Some mainCaptcha) (Some true))
     = Fulfilled tt.
Proof.
  assert (H : absent (id mainCaptcha) \/ absent (token mainCaptcha))
    by (right; right; right; reflexivity).
  split; [exact H |].
  apply (invalid_captcha_stops_construction
           (worldWith (pageAt dashboard)) mainLogin mainCaptcha (Some true) H).
Defined.

(** C5, as the code has it: with an empty, [null] or [undefined] username
    or password the constructor returns normally, never enters [run] and
    never launches a browser.  It logs the invalid login options unless a
    CAPTCHA configuration with an empty id or token was given: then it has
    already returned on the invalid captcha options, which is all it logs. *)
Theorem invalid_login_stops_construction
        (w : World) (l : LoginOptions) (captcha : option CaptchaOptions) (dbg : option bool) :
  absent (username l) \/ absent (password l) ->
  let r := constructor w l captcha dbg in
  fst r = Fulfilled tt
  /\ ~ In (Call "run") (trace (snd r))
  /\ (forall headless, ~ In (Launch headless) (trace (snd r)))
  /\ match captcha with
     | None =>
         trace (snd r) =
         [Console console_error
            (lineOf "ERROR" (toLocaleTimeString w 0) "Login" "Invalid login options provided")]
     | Some c =>
         (absent (id c) \/ absent (token c) ->
          trace (snd r) =
          [Console console_error
             (lineOf "ERROR" (toLocaleTimeString w 0) "CaptchaSolver"
                     "Invalid captcha options provided")])
         /\ (~ (absent (id c) \/ absent (token c)) ->
             trace (snd r) =
             [UsePlugin (id c) (token c)
                        (match visualFeedback c with Some b => b | None => false end);
              Console console_log
                (lineOf "LOG" (toLocaleTimeString w 1) "CaptchaSolver"
                        "Captcha options set, continuing to validate login options");
              Console console_error
                (lineOf "ERROR" (toLocaleTimeString w 2) "Login"
                        "Invalid login options provided")])
     end.
Proof.
  intros H r. subst r. apply nonNullEmpty_pair in H.
  unfold constructor, construct. cbn [captchaOptions this].
  destruct captcha as [c |].
  - destruct (Validate.nonNullEmpty [id c; token c]) eqn:Hc; cbn [negb].
    + assert (Hvalid : ~ (absent (id c) \/ absent (token c)))
        by (rewrite <- nonNullEmpty_pair; congruence).
      unfold bind, emit. rewrite log_eq.
      rewrite validateLoginAndRun_invalid by exact H. cbn.
      split; [reflexivity |].
      split; [intros [E | [E | [E | []]]]; discriminate E |].
      split; [intros headless [E | [E | [E | []]]]; discriminate E |].
      split; [intros Hbad; contradiction | reflexivity].
    + apply nonNullEmpty_pair in Hc.
      rewrite log_eq. cbn.
      split; [reflexivity |].
      split; [intros [E | []]; discriminate E |].
      split; [intros headless [E | []]; discriminate E |].
      split; [reflexivity | intros Hgood; contradiction].
  - rewrite validateLoginAndRun_invalid by exact H. cbn.
    split; [reflexivity |].
    split; [intros [E | []]; discriminate E |].
    split; [intros headless [E | []]; discriminate E | reflexivity].
Qed.

Lemma invalid_login_stops_construction_witness :
  (absent (username mainLogin) \/ absent (password mainLogin))
  /\ fst (constructor (worldWith (pageAt dashboard)) mainLogin (Some capmonster) None)
     = Fulfilled tt.
Proof.
  assert (H : absent (username mainLogin) \/ absent (password mainLogin))
    by (left; right; right; reflexivity).
  split; [exact H |].
  apply (invalid_login_stops_construction
           (worldWith (pageAt dashboard)) mainLogin (Some capmonster) None H).
Defined.

(** C5, as the specification states it, fails on the arguments of [main.ts]: the
    username is empty, yet the only line written is the one about the
    captcha options; the invalid login options are never logged. *)
Lemma invalid_login_not_logged :
  username mainLogin = VStr ""
  /\ trace (snd (constructor (worldWith (pageAt dashboard))
                             mainLogin (Some mainCaptcha) (Some true)))
     = [Console console_error
          "[BrowsingSession-ERROR] [12:00:00] [CaptchaSolver] Invalid captcha options provided"]
  /\ logged "Invalid login options provided"
            (trace (snd (constructor (worldWith (pageAt dashboard))
                                     mainLogin (Some mainCaptcha) (Some true))))
     = false.
Proof. split; [| split]; vm_compute; reflexivity. Qed.

(** ** solveCaptchas *)

Lemma strictEq_true a b : a = b -> strictEq a b = true.
Proof. intros ->. unfold strictEq. destruct (value_eq_dec b b); congruence. Qed.

Lemma strictEq_false a b : a <> b -> strictEq a b = false.
Proof. intros H. unfold strictEq. destruct (value_eq_dec a b); congruence. Qed.

(** C7, as the code has it: a provider id other than capmonster makes
    [solveCaptchas] return an absent result without throwing.  The id
    2captcha is skipped in silence, nothing is logged and nothing else
    happens; any other id is logged as an invalid provider. *)
Theorem unsupported_provider_absent
        (w : World) (pg : option Page) (c : CaptchaOptions) (s : state) :
  id c <> VStr "capmonster" ->
  fst (solveCaptchas w pg (Some c) s) = Fulfilled None
  /\ (id c = VStr "2captcha" -> snd (solveCaptchas w pg (Some c) s) = s)
  /\ (id c <> VStr "2captcha" ->
      snd (solveCaptchas w pg (Some c) s) =
      record (Console console_error
                (lineOf "ERROR" (toLocaleTimeString w (length (trace s))) "CaptchaSolver"
                        "Invalid captcha provider specified")) s).
Proof.
  intros H. unfold solveCaptchas. rewrite (strictEq_false _ _ H).
  destruct (value_eq_dec (id c) (VStr "2captcha")) as [E | E].
  - rewrite (strictEq_true _ _ E).
    split; [reflexivity | split; [reflexivity | congruence]].
  - rewrite (strictEq_false _ _ E). unfold bind. rewrite log_eq.
    split; [reflexivity | split; [congruence | reflexivity]].
Qed.

Lemma unsupported_provider_absent_witness :
  id twoCaptcha <> VStr "capmonster"
  /\ fst (solveCaptchas (worldWith (pageAt dashboard)) (Some (pageAt dashboard))
                        (Some twoCaptcha)
                        (sessionOn (pageAt dashboard) someLogin (Some twoCaptcha)))
     = Fulfilled None.
Proof.
  split; [discriminate |].
  apply (unsupported_provider_absent
           (worldWith (pageAt dashboard)) (Some (pageAt dashboard)) twoCaptcha
           (sessionOn (pageAt dashboard) someLogin (Some twoCaptcha))).
  discriminate.
Defined.

(** C7, as the specification states it, fails for the provider id 2captcha: it is not
    the capmonster branch, the result is absent, and no line is logged. *)
Lemma twoCaptcha_not_logged :
  id twoCaptcha <> VStr "capmonster"
  /\ fst (solveCaptchas (worldWith (pageAt dashboard)) (Some (pageAt dashboard))
                        (Some twoCaptcha)
                        (sessionOn (pageAt dashboard) someLogin (Some twoCaptcha)))
     = Fulfilled None
  /\ trace (snd (solveCaptchas (worldWith (pageAt dashboard)) (Some (pageAt dashboard))
                               (Some twoCaptcha)
                               (sessionOn (pageAt dashboard) someLogin (Some twoCaptcha))))
     = [].
Proof. split; [discriminate | split; vm_compute; reflexivity]. Qed.

(** ** What every step of the executor respects

    A relation between the state before and after that is reflexive,
    transitive and kept by the primitive steps is kept by every
    asynchronous body built from them, up to the executor of [login]. *)

Section Respects.

Variable R : state -> state -> Prop.

Hypothesis R_refl : forall s, R s s.
Hypothesis R_trans : forall a b c, R a b -> R b c -> R a c.
Hypothesis R_record : forall e s, isSettle e = false -> R s (record e s).
Hypothesis R_resolve :
  forall r s, R s (settleWith (Fulfilled r) (record (Resolve r) s)).
Hypothesis R_reject :
  forall reason s, R s (settleWith (Rejected reason) (record (Reject reason) s)).

Lemma respects_ret {A} (a : A) : respects R (ret a).
Proof. intros s. apply R_refl. Qed.

Lemma respects_bind {A B} (p : Async A) (k : A -> Async B) :
  respects R p -> (forall a, respects R (k a)) -> respects R (bind p k).
Proof.
  intros Hp Hk s. unfold bind. specialize (Hp s).
  destruct (p s) as [[a | e |] s']; simpl in *; [| exact Hp | exact Hp].
  eapply R_trans; [exact Hp | apply Hk].
Qed.

Lemma respects_catch {A} (p : Async A) (h : string -> Async A) :
  respects R p -> (forall e, respects R (h e)) -> respects R (catch p h).
Proof.
  intros Hp Hh s. unfold catch. specialize (Hp s).
  destruct (p s) as [[a | e |] s']; simpl in *; [exact Hp | | exact Hp].
  eapply R_trans; [exact Hp | apply Hh].
Qed.

Lemma respects_read {A} (f : state -> Async A) :
  (forall s0, respects R (f s0)) -> respects R (fun s => f s s).
Proof. intros H s. apply (H s s). Qed.

Lemma respects_onPage (k : Page -> Async unit) :
  (forall pg, respects R (k pg)) -> respects R (onPage k).
Proof.
  intros H s. unfold onPage. destruct (page (this s)); [apply H | apply R_refl].
Qed.

Lemma respects_promiseAll (a b : Async unit) :
  respects R a -> respects R b -> respects R (promiseAll a b).
Proof.
  intros Ha Hb s. unfold promiseAll. specialize (Ha s).
  destruct (a s) as [ra s1]. specialize (Hb s1).
  destruct (b s1) as [rb s2]. simpl in *.
  eapply R_trans; eassumption.
Qed.

Lemma respects_perform {A} (e : event) (answer : outcome A) :
  isSettle e = false -> respects R (perform e answer).
Proof. intros H s. now apply R_record. Qed.

Lemma respects_log (w : World) message from lvl : respects R (log w message from lvl).
Proof.
  intros s. rewrite log_eq. simpl.
  destruct lvl as [[| |] |]; now apply R_record.
Qed.

Lemma respects_resolve r : respects R (resolve r).
Proof. intros s. apply R_resolve. Qed.

Lemma respects_reject reason : respects R (reject reason).
Proof. intros s. apply R_reject. Qed.

Lemma respects_solveCaptchas (w : World) pg options :
  respects R (solveCaptchas w pg options).
Proof.
  unfold solveCaptchas. destruct options as [c |]; [| apply respects_ret].
  destruct (strictEq (id c) (VStr "capmonster")).
  - apply respects_bind; [apply respects_log | intros _].
    destruct pg as [p |]; [| apply respects_ret].
    apply respects_catch.
    + apply respects_bind; [now apply respects_perform | intros; apply respects_ret].
    + intros e. apply respects_bind; [apply respects_log | intros; apply respects_ret].
  - destruct (strictEq (id c) (VStr "2captcha")); [apply respects_ret |].
    apply respects_bind; [apply respects_log | intros; apply respects_ret].
Qed.

Lemma respects_fillField selector text pg : respects R (fillField selector text pg).
Proof.
  unfold fillField. apply respects_bind; [now apply respects_perform | intros _].
  apply respects_onPage. intros pg'. now apply respects_perform.
Qed.

Lemma respects_announceAndSubmit (w : World) : respects R (announceAndSubmit w).
Proof.
  unfold announceAndSubmit. apply respects_bind.
  - apply (respects_read (fun s0 => log w _ _ _)). intros s0. apply respects_log.
  - intros _. apply respects_promiseAll;
      apply respects_onPage; intros pg; now apply respects_perform.
Qed.

Lemma respects_afterCaptcha (w : World) solution : respects R (afterCaptcha w solution).
Proof.
  unfold afterCaptcha. apply respects_bind.
  - destruct solution; [apply respects_ret | apply respects_reject].
  - intros _. apply respects_announceAndSubmit.
Qed.

Lemma respects_enterUsername : respects R enterUsername.
Proof.
  intros s. unfold enterUsername.
  apply (respects_onPage
           (fun pg => catch (fillField _ (username (loginOptions (this s))) pg) _)).
  intros pg.
  apply respects_catch; [apply respects_fillField | intros; apply respects_reject].
Qed.

Lemma respects_enterPassword : respects R enterPassword.
Proof.
  intros s. unfold enterPassword.
  apply (respects_onPage
           (fun pg => catch (fillField _ (password (loginOptions (this s))) pg) _)).
  intros pg.
  apply respects_catch; [apply respects_fillField | intros; apply respects_reject].
Qed.

Lemma respects_solveAndSubmit (w : World) : respects R (solveAndSubmit w).
Proof.
  intros s. unfold solveAndSubmit.
  apply (respects_catch
           (bind (solveCaptchas w (page (this s)) (captchaOptions (this s))) _) _);
    [| intros; apply respects_reject].
  apply respects_bind; [apply respects_solveCaptchas | intros; apply respects_afterCaptcha].
Qed.

Lemma respects_checkUrl : respects R checkUrl.
Proof.
  intros s. unfold checkUrl. destruct (page (this s)) as [pg |]; [| apply R_refl].
  apply respects_bind; [now apply respects_perform | intros _].
  destruct (String.eqb (url pg) dashboard); [apply respects_resolve | apply respects_ret].
Qed.

(** The statements that follow the entry of the username. *)
Lemma respects_afterUsername (w : World) :
  respects R (enterPassword ;; solveAndSubmit w ;; checkUrl ;; reject "INVALID_CREDENTIALS").
Proof.
  apply respects_bind; [apply respects_enterPassword | intros _].
  apply respects_bind; [apply respects_solveAndSubmit | intros _].
  apply respects_bind; [apply respects_checkUrl | intros; apply respects_reject].
Qed.

Lemma respects_afterIdle (w : World) : respects R (afterIdle w).
Proof.
  unfold afterIdle.
  apply respects_bind; [apply respects_enterUsername | intros; apply respects_afterUsername].
Qed.

Lemma respects_executor (w : World) : respects R (executor w).
Proof.
  unfold executor. apply respects_onPage. intros pg.
  apply respects_catch; [| intros; apply respects_reject].
  apply respects_bind; [now apply respects_perform | intros; apply respects_afterIdle].
Qed.

End Respects.

(** ** The configuration is never written *)

Lemma keeps_refl s : keepsConfiguration s s.
Proof. reflexivity. Qed.

Lemma keeps_trans a b c :
  keepsConfiguration a b -> keepsConfiguration b c -> keepsConfiguration a c.
Proof. unfold keepsConfiguration. congruence. Qed.

Lemma keeps_record e s : isSettle e = false -> keepsConfiguration s (record e s).
Proof. reflexivity. Qed.

Lemma keeps_resolve r s :
  keepsConfiguration s (settleWith (Fulfilled r) (record (Resolve r) s)).
Proof. reflexivity. Qed.

Lemma keeps_reject reason s :
  keepsConfiguration s (settleWith (Rejected reason) (record (Reject reason) s)).
Proof. reflexivity. Qed.

Lemma keeps_login (w : World) : respects keepsConfiguration (login w).
Proof.
  intros s. unfold login. cbn [snd].
  apply (respects_executor keepsConfiguration keeps_refl keeps_trans
                           keeps_record keeps_resolve keeps_reject w
                           {| this := this s; trace := trace s; promise := Pending |}).
Qed.

Lemma keeps_run (w : World) : respects keepsConfiguration (run w).
Proof.
  assert (Hlog : forall m f l, respects keepsConfiguration (log w m f l))
    by (intros; apply respects_log, keeps_record).
  unfold run.
  apply respects_bind; [exact keeps_trans | intros s; reflexivity | intros _].
  apply respects_bind; [exact keeps_trans | apply Hlog | intros _].
  apply respects_bind; [exact keeps_trans | intros s; reflexivity | intros browser].
  apply respects_bind; [exact keeps_trans | intros s; reflexivity | intros _].
  apply respects_bind; [exact keeps_trans | apply Hlog | intros _].
  apply respects_bind; [exact keeps_trans | intros s; reflexivity | intros pg].
  apply respects_bind; [exact keeps_trans | intros s; reflexivity | intros _].
  apply respects_catch; [exact keeps_trans | | intros; apply Hlog].
  apply respects_bind; [exact keeps_trans | intros s; reflexivity | intros _].
  apply respects_catch; [exact keeps_trans | | intros; apply Hlog].
  apply respects_bind; [exact keeps_trans | apply keeps_login | intros; apply Hlog].
Qed.

(** C9: [run], [login] and [solveCaptchas] leave [loginOptions],
    [captchaOptions] and [debug] as the constructor set them, whatever the
    browser and the page answer. *)
Theorem configuration_immutable (w : World) (s : state) :
  configuration (this (snd (run w s))) = configuration (this s)
  /\ configuration (this (snd (login w s))) = configuration (this s)
  /\ (forall pg options,
         configuration (this (snd (solveCaptchas w pg options s))) = configuration (this s)).
Proof.
  split; [apply keeps_run | split; [apply keeps_login |]].
  intros pg options.
  apply (respects_solveCaptchas keepsConfiguration keeps_refl keeps_trans keeps_record).
Qed.

(** ** The promise of login keeps its first settlement *)

Lemma settlements_app a b :
  settlements (a ++ b)%list = (settlements a ++ settlements b)%list.
Proof.
  induction a as [| e a IH]; simpl; [reflexivity |].
  destruct e; simpl; now rewrite ?IH.
Qed.

Lemma firstSettled_settled o calls : o <> Pending -> firstSettled o calls = o.
Proof.
  revert o. unfold firstSettled.
  induction calls as [| c calls IH]; intros o Ho; simpl; [reflexivity |].
  destruct o; [now apply IH | now apply IH | now elim Ho].
Qed.

Lemma settlements_not_pending tr : Forall (fun o => o <> Pending) (settlements tr).
Proof.
  induction tr as [| e tr IH]; simpl; [constructor |].
  destruct e; try exact IH; constructor; try exact IH; discriminate.
Qed.

Lemma firstSettled_hd tr :
  firstSettled Pending (settlements tr) = hd Pending (settlements tr).
Proof.
  pose proof (settlements_not_pending tr) as H.
  destruct (settlements tr) as [| o rest]; [reflexivity |].
  inversion H as [| ? ? Ho _]; subst. simpl.
  change (firstSettled o rest = o). now apply firstSettled_settled.
Qed.

Lemma inOrder_refl s : settlesInOrder s s.
Proof. exists []. destruct s. simpl. now rewrite app_nil_r. Qed.

Lemma inOrder_trans a b c :
  settlesInOrder a b -> settlesInOrder b c -> settlesInOrder a c.
Proof.
  intros [e1 ->] [e2 ->]. exists (e1 ++ e2)%list. simpl.
  rewrite app_assoc, settlements_app. unfold firstSettled.
  now rewrite fold_left_app.
Qed.

Lemma inOrder_record e s : isSettle e = false -> settlesInOrder s (record e s).
Proof.
  intros H. exists [e]. unfold record.
  replace (settlements [e]) with (@nil (outcome LoginResults))
    by (destruct e; simpl in *; congruence).
  reflexivity.
Qed.

Lemma inOrder_resolve r s :
  settlesInOrder s (settleWith (Fulfilled r) (record (Resolve r) s)).
Proof. exists [Resolve r]. destruct s as [o tr [| |]]; reflexivity. Qed.

Lemma inOrder_reject reason s :
  settlesInOrder s (settleWith (Rejected reason) (record (Reject reason) s)).
Proof. exists [Reject reason]. destruct s as [o tr [| |]]; reflexivity. Qed.

Lemma executor_settles_in_order (w : World) : respects settlesInOrder (executor w).
Proof.
  exact (respects_executor settlesInOrder inOrder_refl inOrder_trans
                           inOrder_record inOrder_resolve inOrder_reject w).
Qed.

(** X13: Whatever the page answers, [login] leaves the object alone, and the
    promise it returns is settled by the first call of [resolve] or
    [reject] its executor makes; it is pending when there is none. *)
Lemma login_first_call_wins (w : World) (s : state) :
  exists evs,
    this (snd (login w s)) = this s
    /\ trace (snd (login w s)) = (trace s ++ evs)%list
    /\ fst (login w s) = hd Pending (settlements evs).
Proof.
  destruct (executor_settles_in_order w
              {| this := this s; trace := trace s; promise := Pending |}) as [evs H].
  exists evs. unfold login. cbn [fst snd]. rewrite H. cbn.
  repeat split. apply firstSettled_hd.
Qed.

(** ** Login: the final URL decides when every step went through *)

(** Runs the executor on a session whose fields are known, one external
    answer at a time. *)
Ltac open_login :=
  unfold login, executor, afterIdle, enterUsername, enterPassword, solveAndSubmit,
         checkUrl, afterCaptcha, announceAndSubmit, solveCaptchas, fillField,
         onPage, catch, bind, perform, promiseAll, resolve, reject, ret;
  cbn -[log lineOf String.eqb].

Ltac answer H :=
  rewrite ?log_eq; cbn -[log lineOf String.eqb];
  rewrite H; cbn -[log lineOf String.eqb].

Lemma login_all_steps_through (w : World) (s : state) (pg : Page) :
  page (this s) = Some pg ->
  pageIdle pg ->
  fieldFilled pg "input[name=username]" (username (loginOptions (this s))) ->
  fieldFilled pg "input[name=password]" (password (loginOptions (this s))) ->
  captchaSolved pg (captchaOptions (this s)) ->
  formSubmitted pg ->
  fst (login w s) =
  if String.eqb (url pg) dashboard
  then Fulfilled LOGIN_SUCCESS
  else Rejected "INVALID_CREDENTIALS".
Proof.
  intros Hp Hidle [Hu1 Hu2] [Hp1 Hp2] (c & res & Hc & Hid & Hsol) [Hnav Hsub].
  destruct s as [[lo se pgo co d] tr pr]. cbn in Hp, Hu2, Hp2, Hc. subst pgo co.
  unfold pageIdle in Hidle.
  open_login.
  answer Hidle. answer Hu1. answer Hu2. answer Hp1. answer Hp2.
  rewrite Hid, (strictEq_true _ _ eq_refl).
  answer Hsol. answer Hnav. rewrite Hsub. cbn -[String.eqb].
  destruct (String.eqb (url pg) dashboard); reflexivity.
Qed.

(** C3, as the code has it: when the page settles, the username and the
    password are entered, the captcha is solved and the submission of line
    156 (the click on the submit button and the wait for the navigation it
    starts) completes, a page that is then at the dashboard URL makes the
    outcome of [login] LOGIN_SUCCESS. *)
Theorem dashboard_url_is_success (w : World) (s : state) (pg : Page) :
  page (this s) = Some pg ->
  pageIdle pg ->
  fieldFilled pg "input[name=username]" (username (loginOptions (this s))) ->
  fieldFilled pg "input[name=password]" (password (loginOptions (this s))) ->
  captchaSolved pg (captchaOptions (this s)) ->
  formSubmitted pg ->
  url pg = "https://autofaucet.org/dashboard" ->
  fst (login w s) = Fulfilled LOGIN_SUCCESS
  /\ loginOutcome (fst (login w s)) = Some LOGIN_SUCCESS.
Proof.
  intros Hp Hidle Hu Hpw Hc Hsub Hurl.
  rewrite (login_all_steps_through w s pg Hp Hidle Hu Hpw Hc Hsub), Hurl.
  split; reflexivity.
Qed.

Lemma dashboard_url_is_success_witness :
  url (pageAt dashboard) = "https://autofaucet.org/dashboard"
  /\ fst (login (worldWith (pageAt dashboard))
                (sessionOn (pageAt dashboard) someLogin (Some capmonster)))
     = Fulfilled LOGIN_SUCCESS.
Proof.
  split; [reflexivity |].
  apply (dashboard_url_is_success
           (worldWith (pageAt dashboard))
           (sessionOn (pageAt dashboard) someLogin (Some capmonster))
           (pageAt dashboard)).
  - reflexivity.
  - reflexivity.
  - split; reflexivity.
  - split; reflexivity.
  - exists capmonster, {| captchas := 1; solved := 1 |}. repeat split.
  - split; reflexivity.
  - reflexivity.
Defined.

(** C4, as the code has it: under the same conditions, the submission of
    line 156 included, a page that is then at any other URL makes the
    outcome of [login] INVALID_CREDENTIALS; the promise carries it as its
    rejection reason. *)
Theorem other_url_is_invalid_credentials (w : World) (s : state) (pg : Page) :
  page (this s) = Some pg ->
  pageIdle pg ->
  fieldFilled pg "input[name=username]" (username (loginOptions (this s))) ->
  fieldFilled pg "input[name=password]" (password (loginOptions (this s))) ->
  captchaSolved pg (captchaOptions (this s)) ->
  formSubmitted pg ->
  url pg <> "https://autofaucet.org/dashboard" ->
  fst (login w s) = Rejected "INVALID_CREDENTIALS"
  /\ loginOutcome (fst (login w s)) = Some INVALID_CREDENTIALS.
Proof.
  intros Hp Hidle Hu Hpw Hc Hsub Hurl.
  rewrite (login_all_steps_through w s pg Hp Hidle Hu Hpw Hc Hsub).
  apply String.eqb_neq in Hurl. unfold dashboard. rewrite Hurl.
  split; reflexivity.
Qed.

Lemma other_url_is_invalid_credentials_witness :
  url (pageAt "https://autofaucet.org/login") <> "https://autofaucet.org/dashboard"
  /\ fst (login (worldWith (pageAt "https://autofaucet.org/login"))
                (sessionOn (pageAt "https://autofaucet.org/login") someLogin (Some capmonster)))
     = Rejected "INVALID_CREDENTIALS".
Proof.
  split; [discriminate |].
  apply (other_url_is_invalid_credentials
           (worldWith (pageAt "https://autofaucet.org/login"))
           (sessionOn (pageAt "https://autofaucet.org/login") someLogin (Some capmonster))
           (pageAt "https://autofaucet.org/login")).
  - reflexivity.
  - reflexivity.
  - split; reflexivity.
  - split; reflexivity.
  - exists capmonster, {| captchas := 1; solved := 1 |}. repeat split.
  - split; reflexivity.
  - discriminate.
Defined.

(** C3, as the specification states it, fails when the wait for the navigation times
    out: both fields were filled, the captcha was solved, the submit button
    was clicked and the page is at the dashboard URL, yet the promise was
    already rejected with CAPTCHA_FIELD_RELATED by the handler of line 157. *)
Lemma navigation_timeout_at_dashboard :
  fieldFilled (pageTimingOut dashboard) "input[name=username]" (username someLogin)
  /\ fieldFilled (pageTimingOut dashboard) "input[name=password]" (password someLogin)
  /\ captchaSolved (pageTimingOut dashboard) (Some capmonster)
  /\ click (pageTimingOut dashboard) "button[type=submit]" = Fulfilled tt
  /\ url (pageTimingOut dashboard) = "https://autofaucet.org/dashboard"
  /\ fst (login (worldWith (pageTimingOut dashboard))
                (sessionOn (pageTimingOut dashboard) someLogin (Some capmonster)))
     = Rejected "CAPTCHA_FIELD_RELATED"
  /\ loginOutcome
       (fst (login (worldWith (pageTimingOut dashboard))
                   (sessionOn (pageTimingOut dashboard) someLogin (Some capmonster))))
     <> Some LOGIN_SUCCESS.
Proof.
  split; [split; reflexivity |].
  split; [split; reflexivity |].
  split; [exists capmonster, {| captchas := 1; solved := 1 |}; repeat split |].
  split; [reflexivity |].
  split; [reflexivity |].
  split; [vm_compute; reflexivity | vm_compute; discriminate].
Qed.

(** C4, as the specification states it, fails in the same way on a page that stays on
    the login form: the outcome is CAPTCHA_FIELD_RELATED, not
    INVALID_CREDENTIALS. *)
Lemma navigation_timeout_elsewhere :
  fieldFilled (pageTimingOut "https://autofaucet.org/login") "input[name=username]"
              (username someLogin)
  /\ fieldFilled (pageTimingOut "https://autofaucet.org/login") "input[name=password]"
                 (password someLogin)
  /\ captchaSolved (pageTimingOut "https://autofaucet.org/login") (Some capmonster)
  /\ click (pageTimingOut "https://autofaucet.org/login") "button[type=submit]" = Fulfilled tt
  /\ url (pageTimingOut "https://autofaucet.org/login") <> "https://autofaucet.org/dashboard"
  /\ fst (login (worldWith (pageTimingOut "https://autofaucet.org/login"))
                (sessionOn (pageTimingOut "https://autofaucet.org/login")
                           someLogin (Some capmonster)))
     = Rejected "CAPTCHA_FIELD_RELATED"
  /\ loginOutcome
       (fst (login (worldWith (pageTimingOut "https://autofaucet.org/login"))
                   (sessionOn (pageTimingOut "https://autofaucet.org/login")
                              someLogin (Some capmonster))))
     <> Some INVALID_CREDENTIALS.
Proof.
  split; [split; reflexivity |].
  split; [split; reflexivity |].
  split; [exists capmonster, {| captchas := 1; solved := 1 |}; repeat split |].
  split; [reflexivity |].
  split; [discriminate |].
  split; [vm_compute; reflexivity | vm_compute; discriminate].
Qed.

(** ** Login: what happens after a failure *)

Lemma settled_stays {A} (p : Async A) (s : state) :
  respects settlesInOrder p -> promise s <> Pending -> promise (snd (p s)) = promise s.
Proof.
  intros Hp Hs. destruct (Hp s) as [evs ->]. simpl. now apply firstSettled_settled.
Qed.

Lemma trace_grows {A} (p : Async A) (s : state) (e : event) :
  respects settlesInOrder p -> In e (trace s) -> In e (trace (snd (p s))).
Proof.
  intros Hp He. destruct (Hp s) as [evs ->]. simpl. apply in_or_app. now left.
Qed.

Lemma enterUsername_settlesInOrder : respects settlesInOrder enterUsername.
Proof.
  exact (respects_enterUsername settlesInOrder inOrder_refl inOrder_trans
                                inOrder_record inOrder_reject).
Qed.

Lemma afterUsername_settlesInOrder (w : World) :
  respects settlesInOrder
           (enterPassword ;; solveAndSubmit w ;; checkUrl ;; reject "INVALID_CREDENTIALS").
Proof.
  exact (respects_afterUsername settlesInOrder inOrder_refl inOrder_trans
                                inOrder_record inOrder_resolve inOrder_reject w).
Qed.

Lemma afterPassword_settlesInOrder (w : World) :
  respects settlesInOrder (solveAndSubmit w ;; checkUrl ;; reject "INVALID_CREDENTIALS").
Proof.
  apply respects_bind; [exact inOrder_trans | | intros _].
  - exact (respects_solveAndSubmit settlesInOrder inOrder_refl inOrder_trans
                                   inOrder_record inOrder_reject w).
  - apply respects_bind; [exact inOrder_trans | | intros; intros s; apply inOrder_reject].
    exact (respects_checkUrl settlesInOrder inOrder_refl inOrder_trans
                             inOrder_record inOrder_resolve).
Qed.

(** With a page that settles, [login] is the callback of line 137 followed,
    should it throw, by the handler of line 164. *)
Lemma login_after_idle (w : World) (s : state) (pg : Page) :
  page (this s) = Some pg ->
  pageIdle pg ->
  snd (login w s) =
  snd (catch (afterIdle w) (fun _ => reject "PAGE_OTHER_ERROR")
             (record (WaitForNavigation (Some "networkidle0"))
                     {| this := this s; trace := trace s; promise := Pending |})).
Proof.
  intros Hp Hidle. unfold login, executor, onPage. cbn [fst snd this].
  rewrite Hp. unfold catch, bind, perform. rewrite Hidle. reflexivity.
Qed.

Lemma login_is_promise (w : World) (s : state) :
  fst (login w s) = promise (snd (login w s)).
Proof. reflexivity. Qed.

Lemma catch_keeps_settled {A} (p : Async A) (h : string -> Async A) (s : state) :
  (forall e, respects settlesInOrder (h e)) ->
  promise (snd (p s)) <> Pending ->
  promise (snd (catch p h s)) = promise (snd (p s)).
Proof.
  intros Hh Hs. unfold catch.
  destruct (p s) as [[a | e |] s']; simpl in *; try reflexivity.
  now apply settled_stays.
Qed.

Lemma bind_keeps_settled {A B} (p : Async A) (k : A -> Async B) (s : state) :
  (forall a, respects settlesInOrder (k a)) ->
  promise (snd (p s)) <> Pending ->
  promise (snd (bind p k s)) = promise (snd (p s)).
Proof.
  intros Hk Hs. unfold bind.
  destruct (p s) as [[a | e |] s']; simpl in *; try reflexivity.
  now apply settled_stays.
Qed.

Lemma catch_trace_grows {A} (p : Async A) (h : string -> Async A) (s : state) (e : event) :
  (forall x, respects settlesInOrder (h x)) ->
  In e (trace (snd (p s))) ->
  In e (trace (snd (catch p h s))).
Proof.
  intros Hh He. unfold catch.
  destruct (p s) as [[a | x |] s']; simpl in *; try exact He.
  now apply trace_grows.
Qed.

Lemma bind_trace_grows {A B} (p : Async A) (k : A -> Async B) (s : state) (e : event) :
  (forall a, respects settlesInOrder (k a)) ->
  In e (trace (snd (p s))) ->
  In e (trace (snd (bind p k s))).
Proof.
  intros Hk He. unfold bind.
  destruct (p s) as [[a | x |] s']; simpl in *; try exact He.
  now apply trace_grows.
Qed.

Lemma reject_settles_handlers (reason : string) :
  forall e : string, respects settlesInOrder ((fun _ => reject reason) e).
Proof. intros _ s. apply inOrder_reject. Qed.

Lemma enterUsername_fails (s : state) (pg : Page) :
  page (this s) = Some pg ->
  promise s = Pending ->
  fieldFails pg "input[name=username]" (username (loginOptions (this s))) ->
  fst (enterUsername s) = Fulfilled tt
  /\ this (snd (enterUsername s)) = this s
  /\ promise (snd (enterUsername s)) = Rejected "USERNAME_FIELD_RELATED".
Proof.
  intros Hp Hs Hf. unfold enterUsername, onPage. rewrite Hp.
  unfold catch, fillField, bind, perform, onPage, reject.
  destruct Hf as [[reason Hc] | [Hc [reason Ht]]]; rewrite Hc; cbn [this record].
  - cbn. rewrite Hs. repeat split.
  - rewrite Hp, Ht. cbn. rewrite Hs. repeat split.
Qed.

Lemma enterPassword_clicks (s : state) (pg : Page) :
  page (this s) = Some pg ->
  In (Click "input[name=password]") (trace (snd (enterPassword s))).
Proof.
  intros Hp. unfold enterPassword, onPage. rewrite Hp.
  unfold catch, fillField, bind, perform, onPage, reject.
  destruct (click pg "input[name=password]") as [[] | e |]; cbn [this record].
  - rewrite Hp.
    destruct (type pg "input[name=password]" (password (loginOptions (this s))));
      cbn; rewrite !in_app_iff; simpl; tauto.
  - cbn. rewrite !in_app_iff; simpl; tauto.
  - cbn. rewrite !in_app_iff; simpl; tauto.
Qed.

(** X14: On every page that settles and on which the interaction with the
    username field throws, the promise of [login] is rejected with
    USERNAME_FIELD_RELATED, and the password field is clicked all the
    same. *)
Lemma username_failure_goes_on (w : World) (s : state) (pg : Page) :
  page (this s) = Some pg ->
  pageIdle pg ->
  fieldFails pg "input[name=username]" (username (loginOptions (this s))) ->
  fst (login w s) = Rejected "USERNAME_FIELD_RELATED"
  /\ In (Click "input[name=password]") (trace (snd (login w s))).
Proof.
  intros Hp Hidle Hf.
  rewrite login_is_promise, (login_after_idle w s pg Hp Hidle).
  set (s1 := record _ _).
  destruct (enterUsername_fails s1 pg Hp eq_refl Hf) as (Hr & Hthis & Hpr).
  assert (Hp2 : page (this (snd (enterUsername s1))) = Some pg) by now rewrite Hthis.
  unfold afterIdle.
  split.
  - rewrite catch_keeps_settled; [| apply reject_settles_handlers |];
      rewrite bind_keeps_settled;
      try (intros _; apply afterUsername_settlesInOrder);
      rewrite Hpr; try reflexivity; discriminate.
  - apply catch_trace_grows; [apply reject_settles_handlers |].
    unfold bind at 1.
    destruct (enterUsername s1) as [r1 s2]. cbn [fst snd] in *. subst r1.
    apply bind_trace_grows; [intros _; apply afterPassword_settlesInOrder |].
    now apply (enterPassword_clicks s2 pg).
Qed.

Lemma enterUsername_ok (s : state) (pg : Page) :
  page (this s) = Some pg ->
  fieldFilled pg "input[name=username]" (username (loginOptions (this s))) ->
  enterUsername s =
  (Fulfilled tt,
   record (TypeText "input[name=username]" (username (loginOptions (this s))))
          (record (Click "input[name=username]") s)).
Proof.
  intros Hp [Hc Ht]. unfold enterUsername, onPage. rewrite Hp.
  unfold catch, fillField, bind, perform, onPage.
  rewrite Hc. cbn [this record]. now rewrite Hp, Ht.
Qed.

Lemma enterPassword_ok (s : state) (pg : Page) :
  page (this s) = Some pg ->
  fieldFilled pg "input[name=password]" (password (loginOptions (this s))) ->
  enterPassword s =
  (Fulfilled tt,
   record (TypeText "input[name=password]" (password (loginOptions (this s))))
          (record (Click "input[name=password]") s)).
Proof.
  intros Hp [Hc Ht]. unfold enterPassword, onPage. rewrite Hp.
  unfold catch, fillField, bind, perform, onPage.
  rewrite Hc. cbn [this record]. now rewrite Hp, Ht.
Qed.

Lemma solveCaptchas_unsolved (w : World) (pg : Page) options (s : state) :
  captchaUnsolved pg options ->
  fst (solveCaptchas w (Some pg) options s) = Fulfilled None
  /\ promise (snd (solveCaptchas w (Some pg) options s)) = promise s.
Proof.
  intros H. unfold solveCaptchas. destruct options as [c |]; [| split; reflexivity].
  simpl in H.
  destruct (value_eq_dec (id c) (VStr "capmonster")) as [E | E].
  - destruct H as [H | [reason H]]; [contradiction |].
    rewrite (strictEq_true _ _ E).
    unfold bind, catch, perform. rewrite log_eq, H. cbn -[log lineOf].
    rewrite log_eq. split; reflexivity.
  - rewrite (strictEq_false _ _ E).
    destruct (strictEq (id c) (VStr "2captcha")); [split; reflexivity |].
    unfold bind. rewrite log_eq. split; reflexivity.
Qed.

(** X15: On every page where the fields can be filled but [solveCaptchas] has
    nothing to return, the promise of [login] is rejected with the text of
    line 153, which names no member of [LoginResults]. *)
Lemma unsolved_captcha_outcome (w : World) (s : state) (pg : Page) :
  page (this s) = Some pg ->
  pageIdle pg ->
  fieldFilled pg "input[name=username]" (username (loginOptions (this s))) ->
  fieldFilled pg "input[name=password]" (password (loginOptions (this s))) ->
  captchaUnsolved pg (captchaOptions (this s)) ->
  fst (login w s) = Rejected "Failed to solve captcha"
  /\ loginOutcome (fst (login w s)) = None.
Proof.
  intros Hp Hidle Hu Hpw Hc.
  assert (fst (login w s) = Rejected "Failed to solve captcha") as ->;
    [| split; reflexivity].
  rewrite login_is_promise, (login_after_idle w s pg Hp Hidle).
  set (s1 := record _ _).
  assert (Hgoal : promise (snd (afterIdle w s1)) = Rejected "Failed to solve captcha").
  { unfold afterIdle. unfold bind at 1.
    rewrite (enterUsername_ok s1 pg Hp Hu).
    set (s2 := record _ (record _ s1)).
    unfold bind at 1. rewrite (enterPassword_ok s2 pg Hp Hpw).
    set (s3 := record _ (record _ s2)).
    assert (Hsub : promise (snd (solveAndSubmit w s3)) = Rejected "Failed to solve captcha").
    { unfold solveAndSubmit.
      assert (Hin : promise (snd (bind (solveCaptchas w (page (this s3)) (captchaOptions (this s3)))
                                       (fun solution => afterCaptcha w solution) s3))
                    = Rejected "Failed to solve captcha").
      { unfold bind at 1.
        change (page (this s3)) with (page (this s)). rewrite Hp.
        change (captchaOptions (this s3)) with (captchaOptions (this s)).
        destruct (solveCaptchas_unsolved w pg (captchaOptions (this s)) s3 Hc) as [Hr Hpr].
        destruct (solveCaptchas w (Some pg) (captchaOptions (this s)) s3) as [r s4].
        cbn [fst snd] in *. subst r.
        unfold afterCaptcha.
        assert (Hrej : promise (snd (reject "Failed to solve captcha" s4))
                       = Rejected "Failed to solve captcha")
          by (unfold reject, settleWith; cbn; now rewrite Hpr).
        rewrite bind_keeps_settled; [exact Hrej | | rewrite Hrej; discriminate].
        intros _.
        exact (respects_announceAndSubmit settlesInOrder inOrder_refl inOrder_trans
                                         inOrder_record w). }
      rewrite catch_keeps_settled;
        [exact Hin | apply reject_settles_handlers | rewrite Hin; discriminate]. }
    rewrite bind_keeps_settled; [exact Hsub | | rewrite Hsub; discriminate].
    intros _. apply respects_bind; [exact inOrder_trans | | intros; intros x; apply inOrder_reject].
    exact (respects_checkUrl settlesInOrder inOrder_refl inOrder_trans
                             inOrder_record inOrder_resolve). }
  rewrite catch_keeps_settled;
    [exact Hgoal | apply reject_settles_handlers | rewrite Hgoal; discriminate].
Qed.

(** C1, on a page whose captcha the solver fails to solve: the promise of
    [login] is rejected with the text of line 153, which is no member of
    the enumeration, and the executor goes on to announce a solved
    captcha, submit the form and call [reject] a second time; the promise
    keeps the first call. *)
Theorem login_rejects_outside_enumeration :
  fst (login (worldWith pageUnsolved) (sessionOn pageUnsolved someLogin (Some capmonster)))
  = Rejected "Failed to solve captcha"
  /\ loginOutcome
       (fst (login (worldWith pageUnsolved) (sessionOn pageUnsolved someLogin (Some capmonster))))
     = None
  /\ trace (snd (login (worldWith pageUnsolved)
                       (sessionOn pageUnsolved someLogin (Some capmonster))))
     = [WaitForNavigation (Some "networkidle0");
        Click "input[name=username]";
        TypeText "input[name=username]" (VStr "alice");
        Click "input[name=password]";
        TypeText "input[name=password]" (VStr "secret");
        Console console_log
          "[BrowsingSession-LOG] [12:00:00] [CaptchaSolver] Solving captcha with CapMonster";
        SolveRecaptchas;
        Console console_error
          "[BrowsingSession-ERROR] [12:00:00] [CaptchaSolver] ERROR_KEY_DOES_NOT_EXIST";
        Reject "Failed to solve captcha";
        Console console_log
          "[BrowsingSession-LOG] [12:00:00] [CaptchaSolver] Successfully solved captcha! (Provider: capmonster)";
        WaitForNavigation None;
        Click "button[type=submit]";
        Url;
        Reject "INVALID_CREDENTIALS"].
Proof. split; [| split]; vm_compute; reflexivity. Qed.

(** The same without a CAPTCHA configuration, on a page that ends on the
    dashboard: three calls, of which the promise keeps the first. *)
Example login_without_captcha_options :
  fst (login (worldWith (pageAt dashboard)) (sessionOn (pageAt dashboard) someLogin None))
  = Rejected "Failed to solve captcha"
  /\ settlements
       (trace (snd (login (worldWith (pageAt dashboard))
                          (sessionOn (pageAt dashboard) someLogin None))))
     = [Rejected "Failed to solve captcha"; Fulfilled LOGIN_SUCCESS;
        Rejected "INVALID_CREDENTIALS"].
Proof. split; vm_compute; reflexivity. Qed.

(** A successful login calls [resolve] and then [reject]. *)
Example login_success_calls_twice :
  settlements
    (trace (snd (login (worldWith (pageAt dashboard))
                       (sessionOn (pageAt dashboard) someLogin (Some capmonster)))))
  = [Fulfilled LOGIN_SUCCESS; Rejected "INVALID_CREDENTIALS"].
Proof. vm_compute; reflexivity. Qed.

(** C2, on a page without the username field: the promise of [login] is
    rejected with USERNAME_FIELD_RELATED, and the executor goes on to
    click and fill the password field, solve the captcha and submit. *)
Theorem username_failure_proceeds_to_password :
  click (pageWithout "input[name=username]" "https://autofaucet.org/login")
        "input[name=username]"
  = Rejected "No node found for selector: input[name=username]"
  /\ fst (login (worldWith (pageWithout "input[name=username]" "https://autofaucet.org/login"))
                (sessionOn (pageWithout "input[name=username]" "https://autofaucet.org/login")
                           someLogin (Some capmonster)))
     = Rejected "USERNAME_FIELD_RELATED"
  /\ trace (snd (login (worldWith (pageWithout "input[name=username]"
                                               "https://autofaucet.org/login"))
                       (sessionOn (pageWithout "input[name=username]"
                                               "https://autofaucet.org/login")
                                  someLogin (Some capmonster))))
     = [WaitForNavigation (Some "networkidle0");
        Click "input[name=username]";
        Reject "USERNAME_FIELD_RELATED";
        Click "input[name=password]";
        TypeText "input[name=password]" (VStr "secret");
        Console console_log
          "[BrowsingSession-LOG] [12:00:00] [CaptchaSolver] Solving captcha with CapMonster";
        SolveRecaptchas;
        Console console_log
          "[BrowsingSession-LOG] [12:00:00] [CaptchaSolver] Successfully solved captcha! (Provider: capmonster)";
        WaitForNavigation None;
        Click "button[type=submit]";
        Url;
        Reject "INVALID_CREDENTIALS"].
Proof. split; [| split]; vm_compute; reflexivity. Qed.

(** X18: [solveCaptchas] returns a solution exactly under the condition the
    theorems on the final URL call a solved captcha. *)
Lemma solveCaptchas_returns_solution
      (w : World) (pg : Page) options (s : state) (res : SolveRecaptchasResult) :
  fst (solveCaptchas w (Some pg) options s) = Fulfilled (Some res) <->
  exists c, options = Some c /\ id c = VStr "capmonster" /\ solveRecaptchas pg = Fulfilled res.
Proof.
  unfold solveCaptchas. destruct options as [c |].
  - destruct (value_eq_dec (id c) (VStr "capmonster")) as [E | E].
    + rewrite (strictEq_true _ _ E). unfold bind, catch, perform. rewrite log_eq.
      cbn -[log lineOf].
      destruct (solveRecaptchas pg) as [r | e |]; cbn -[log lineOf].
      * split.
        -- intros H. injection H as ->. now exists c.
        -- intros (c' & Hc & _ & Hr). now injection Hr as ->.
      * rewrite log_eq. cbn. split; [discriminate |].
        intros (c' & _ & _ & Hr). discriminate Hr.
      * split; [discriminate |]. intros (c' & _ & _ & Hr). discriminate Hr.
    + rewrite (strictEq_false _ _ E).
      assert (Hno : ~ exists c0, Some c = Some c0 /\ id c0 = VStr "capmonster"
                                 /\ solveRecaptchas pg = Fulfilled res).
      { intros (c' & Hc & Hid & _). injection Hc as <-. contradiction. }
      destruct (strictEq (id c) (VStr "2captcha")).
      * split; [discriminate | intros H; now elim Hno].
      * unfold bind. rewrite log_eq. cbn. split; [discriminate | intros H; now elim Hno].
  - cbn. split; [discriminate |]. intros (c & Hc & _). discriminate Hc.
Qed.

(** ** Strings.format on arbitrary strings *)

Lemma append_assoc (a b c : string) : (a ++ b) ++ c = a ++ (b ++ c).
Proof. induction a as [| x a IH]; simpl; [reflexivity | now rewrite IH]. Qed.

Lemma lookup_nil (number : string) : Strings.lookup [] number = VUndefined.
Proof.
  unfold Strings.lookup.
  destruct number as [| c rest]; [reflexivity |].
  destruct (Strings.decimal 0 (String c rest)) as [| n];
    destruct c as [[] [] [] [] [] [] [] []]; try reflexivity;
    destruct rest; reflexivity.
Qed.

Lemma scan_nil (pending : option string) (str : string) :
  Strings.scan [] pending str =
  match pending with
  | None => str
  | Some ds => "{" ++ ds ++ str
  end.
Proof.
  revert pending. induction str as [| c rest IH]; intros pending; simpl.
  - destruct pending as [ds |]; [now rewrite append_empty_r | reflexivity].
  - destruct pending as [ds |].
    + destruct (Ascii.eqb_spec c "{") as [-> | Hopen].
      * rewrite IH. simpl. rewrite ?append_assoc. reflexivity.
      * destruct (Ascii.eqb_spec c "}") as [-> | Hclose].
        -- rewrite IH. destruct ds as [| d ds]; [reflexivity |].
           unfold Strings.replacement. rewrite lookup_nil.
           simpl. rewrite ?append_assoc. reflexivity.
        -- destruct (Strings.digit c); rewrite IH; simpl;
             rewrite ?append_assoc; reflexivity.
    + destruct (Ascii.eqb_spec c "{") as [-> | Hopen]; rewrite IH; reflexivity.
Qed.

(** X1: With no arguments every placeholder is left as it stands: [format]
    returns its string unchanged. *)
Theorem format_without_arguments (str : string) : Strings.format str [] = str.
Proof. unfold Strings.format. now rewrite scan_nil. Qed.

(** X2: Text without an opening brace passes through, whatever the arguments,
    and formatting goes on with what follows it. *)
Theorem format_plain_prefix (plain rest : string) (args : list value) :
  braceFree plain = true ->
  Strings.format (plain ++ rest) args = plain ++ Strings.format rest args.
Proof.
  unfold Strings.format. induction plain as [| c plain IH]; intros H; simpl in *.
  - reflexivity.
  - apply andb_prop in H as [Hc Hrest].
    destruct (Ascii.eqb c "{"); [discriminate Hc |].
    now rewrite IH.
Qed.

Lemma format_plain_prefix_witness :
  braceFree "id: " = true
  /\ Strings.format ("id: " ++ "{0}") [VStr "7"] = "id: " ++ Strings.format "{0}" [VStr "7"].
Proof.
  split; [reflexivity |].
  apply (format_plain_prefix "id: " "{0}" [VStr "7"]). reflexivity.
Defined.

Lemma digit_not_brace (c : ascii) (d : nat) :
  Strings.digit c = Some d -> Ascii.eqb c "{" = false /\ Ascii.eqb c "}" = false.
Proof.
  destruct c as [[] [] [] [] [] [] [] []]; vm_compute; intros H;
    try discriminate H; split; reflexivity.
Qed.

Lemma scan_digits (args : list value) (acc ds rest : string) :
  allDigits ds = true ->
  Strings.scan args (Some acc) (ds ++ String "}" rest) =
  match acc ++ ds with
  | EmptyString => "{}" ++ Strings.scan args None rest
  | number => Strings.replacement args number ++ Strings.scan args None rest
  end.
Proof.
  revert acc. induction ds as [| c ds IH]; intros acc H.
  - rewrite append_empty_r. cbn. destruct acc; reflexivity.
  - simpl in H. destruct (Strings.digit c) as [d |] eqn:Hd; [| discriminate H].
    destruct (digit_not_brace c d Hd) as [Hopen Hclose].
    cbn [append Strings.scan]. rewrite Hopen, Hclose, Hd.
    rewrite (IH (acc ++ String c "") H), append_assoc. reflexivity.
Qed.

(** X3: A placeholder is replaced by the argument its digits name, converted
    to a string and not scanned again, and stays as it is when that
    argument is missing or [undefined]; formatting goes on after the
    closing brace. *)
Theorem format_placeholder (number rest : string) (args : list value) :
  allDigits number = true ->
  number <> "" ->
  Strings.format ("{" ++ number ++ "}" ++ rest) args =
  match Strings.lookup args number with
  | VUndefined => "{" ++ number ++ "}"
  | VNull => "null"
  | VStr text => text
  end ++ Strings.format rest args.
Proof.
  intros Hd Hne. unfold Strings.format.
  cbn [append Strings.scan]. cbn.
  rewrite (scan_digits args "" number rest Hd). cbn [append].
  destruct number as [| c number]; [now elim Hne |].
  unfold Strings.replacement.
  destruct (Strings.lookup args (String c number)); reflexivity.
Qed.

Lemma format_placeholder_witness :
  Strings.format ("{" ++ "1" ++ "}" ++ "!") [VStr "a"; VStr "{0}"] = "{0}" ++ "!".
Proof.
  apply (format_placeholder "1" "!" [VStr "a"; VStr "{0}"]).
  - reflexivity.
  - discriminate.
Defined.

(** X4: A key with a leading zero names no element of the argument array: such
    a placeholder is never replaced. *)
Theorem format_leading_zero (digits rest : string) (args : list value) :
  allDigits digits = true ->
  digits <> "" ->
  Strings.format ("{0" ++ digits ++ "}" ++ rest) args =
  "{0" ++ digits ++ "}" ++ Strings.format rest args.
Proof.
  intros Hd Hne. unfold Strings.format.
  cbn [append Strings.scan]. cbn.
  rewrite (scan_digits args "0" digits rest Hd). cbn [append].
  unfold Strings.replacement, Strings.lookup.
  destruct digits as [| c digits]; [now elim Hne |].
  cbn. rewrite ?append_assoc. reflexivity.
Qed.

Lemma format_leading_zero_witness :
  Strings.format ("{0" ++ "0" ++ "}" ++ "") [VStr "a"] = "{0" ++ "0" ++ "}" ++ "".
Proof.
  apply (format_leading_zero "0" "" [VStr "a"]).
  - reflexivity.
  - discriminate.
Defined.

(** ** Validate.nonNullEmpty on combined argument lists *)

(** X5: Checking two lists of values at once is checking each of them. *)
Theorem nonNullEmpty_app (a b : list value) :
  Validate.nonNullEmpty (a ++ b) = Validate.nonNullEmpty a && Validate.nonNullEmpty b.
Proof.
  induction a as [| v a IH]; simpl; [reflexivity |].
  destruct (Validate.isNullEmpty v); [reflexivity | exact IH].
Qed.

(** ** Login stays on its page *)

Lemma stays_this s s' : staysOnPage s s' -> this s' = this s.
Proof. intros (evs & -> & _). reflexivity. Qed.

Lemma stays_settlesInOrder s s' : staysOnPage s s' -> settlesInOrder s s'.
Proof. intros (evs & H & _). now exists evs. Qed.

Lemma stays_refl s : staysOnPage s s.
Proof.
  exists []. split; [| constructor]. destruct s. simpl. now rewrite app_nil_r.
Qed.

Lemma stays_trans a b c : staysOnPage a b -> staysOnPage b c -> staysOnPage a c.
Proof.
  intros (e1 & -> & H1) (e2 & -> & H2). exists (e1 ++ e2)%list. simpl in *. split.
  - rewrite app_assoc, settlements_app. unfold firstSettled. now rewrite fold_left_app.
  - apply Forall_app. now split.
Qed.

Lemma stays_record e s :
  isSettle e = false -> loginEvent (this s) e -> staysOnPage s (record e s).
Proof.
  intros Hs He. exists [e]. split; [| constructor; [exact He | constructor]].
  unfold record.
  replace (settlements [e]) with (@nil (outcome LoginResults))
    by (destruct e; simpl in *; congruence).
  reflexivity.
Qed.

Lemma stays_reject reason :
  In reason failureReasons -> respects staysOnPage (reject reason).
Proof.
  intros H s. exists [Reject reason]. split; [| constructor; [exact H | constructor]].
  destruct s as [o tr [| |]]; reflexivity.
Qed.

Lemma stays_log (w : World) message from lvl : respects staysOnPage (log w message from lvl).
Proof.
  intros s. rewrite log_eq. cbn [snd].
  destruct lvl as [[| |] |]; apply stays_record; reflexivity || exact I.
Qed.

Lemma stays_perform {A} (e : event) (answer : outcome A) (s : state) :
  isSettle e = false -> loginEvent (this s) e -> staysOnPage s (snd (perform e answer s)).
Proof. intros Hs He. now apply stays_record. Qed.

Lemma stays_bind_at {A B} (p : Async A) (k : A -> Async B) (s : state) :
  staysOnPage s (snd (p s)) ->
  (forall a, staysOnPage (snd (p s)) (snd (k a (snd (p s))))) ->
  staysOnPage s (snd (bind p k s)).
Proof.
  intros Hp Hk. unfold bind.
  destruct (p s) as [[a | e |] s']; cbn [snd] in *; try exact Hp.
  eapply stays_trans; [exact Hp | apply Hk].
Qed.

Lemma stays_catch_at {A} (p : Async A) (h : string -> Async A) (s : state) :
  staysOnPage s (snd (p s)) ->
  (forall e, staysOnPage (snd (p s)) (snd (h e (snd (p s))))) ->
  staysOnPage s (snd (catch p h s)).
Proof.
  intros Hp Hh. unfold catch.
  destruct (p s) as [[a | e |] s']; cbn [snd] in *; try exact Hp.
  eapply stays_trans; [exact Hp | apply Hh].
Qed.

Lemma stays_fillField (selector : string) (text : value) (pg : Page) (s : state) :
  loginEvent (this s) (Click selector) ->
  loginEvent (this s) (TypeText selector text) ->
  staysOnPage s (snd (fillField selector text pg s)).
Proof.
  intros Hc Ht. unfold fillField. apply stays_bind_at.
  - now apply stays_perform.
  - intros _. cbn [snd perform]. unfold onPage. cbn [this record].
    destruct (page (this s)) as [pg' |]; [| apply stays_refl].
    now apply stays_perform.
Qed.

Lemma stays_enterUsername : respects staysOnPage enterUsername.
Proof.
  intros s. unfold enterUsername, onPage.
  destruct (page (this s)) as [pg |]; [| apply stays_refl].
  apply stays_catch_at.
  - apply stays_fillField; cbn; auto.
  - intros _. apply stays_reject. cbn. auto.
Qed.

Lemma stays_enterPassword : respects staysOnPage enterPassword.
Proof.
  intros s. unfold enterPassword, onPage.
  destruct (page (this s)) as [pg |]; [| apply stays_refl].
  apply stays_catch_at.
  - apply stays_fillField; cbn; auto.
  - intros _. apply stays_reject. cbn. auto.
Qed.

Lemma stays_solveCaptchas (w : World) pg options :
  respects staysOnPage (solveCaptchas w pg options).
Proof.
  unfold solveCaptchas. destruct options as [c |]; [| intros s; apply stays_refl].
  destruct (strictEq (id c) (VStr "capmonster")).
  - apply respects_bind; [exact stays_trans | apply stays_log | intros _].
    destruct pg as [p |]; [| intros s; apply stays_refl].
    apply respects_catch; [exact stays_trans | |].
    + apply respects_bind; [exact stays_trans | | intros res s; apply stays_refl].
      intros s. now apply stays_perform.
    + intros e. apply respects_bind;
        [exact stays_trans | apply stays_log | intros _ s; apply stays_refl].
  - destruct (strictEq (id c) (VStr "2captcha")); [intros s; apply stays_refl |].
    apply respects_bind;
      [exact stays_trans | apply stays_log | intros _ s; apply stays_refl].
Qed.

Lemma stays_announceAndSubmit (w : World) : respects staysOnPage (announceAndSubmit w).
Proof.
  unfold announceAndSubmit. apply respects_bind; [exact stays_trans | |].
  - intros s. apply stays_log.
  - intros _. apply respects_promiseAll; [exact stays_trans | |];
      apply respects_onPage; try exact stays_refl; intros pg s;
      apply stays_perform; cbn; auto.
Qed.

Lemma stays_solveAndSubmit (w : World) : respects staysOnPage (solveAndSubmit w).
Proof.
  intros s. unfold solveAndSubmit.
  apply (respects_catch staysOnPage stays_trans
           (bind (solveCaptchas w (page (this s)) (captchaOptions (this s))) _) _).
  - apply respects_bind; [exact stays_trans | apply stays_solveCaptchas | intros solution].
    unfold afterCaptcha. apply respects_bind; [exact stays_trans | |].
    + destruct solution; [intros x; apply stays_refl | apply stays_reject; cbn; auto].
    + intros _. apply stays_announceAndSubmit.
  - intros _. apply stays_reject. cbn. auto.
Qed.

Lemma stays_checkUrl : respects staysOnPage checkUrl.
Proof.
  intros s. unfold checkUrl. destruct (page (this s)) as [pg |] eqn:Hp; [| apply stays_refl].
  apply stays_bind_at; [now apply stays_perform | intros _].
  cbn [snd perform].
  destruct (String.eqb_spec (url pg) dashboard) as [Hu | Hu]; [| apply stays_refl].
  exists [Resolve LOGIN_SUCCESS]. split.
  - destruct s as [o tr [| |]]; reflexivity.
  - constructor; [| constructor]. split; [reflexivity |].
    exists pg. split; [exact Hp | exact Hu].
Qed.

Lemma stays_executor (w : World) : respects staysOnPage (executor w).
Proof.
  unfold executor. apply respects_onPage; [exact stays_refl | intros pg].
  apply respects_catch; [exact stays_trans | | intros _; apply stays_reject; cbn; auto 10].
  apply respects_bind; [exact stays_trans | | intros _].
  - intros s. apply stays_perform; cbn; auto.
  - unfold afterIdle.
    apply respects_bind; [exact stays_trans | apply stays_enterUsername | intros _].
    apply respects_bind; [exact stays_trans | apply stays_enterPassword | intros _].
    apply respects_bind; [exact stays_trans | apply stays_solveAndSubmit | intros _].
    apply respects_bind; [exact stays_trans | apply stays_checkUrl | intros _].
    apply stays_reject. cbn. auto 10.
Qed.

(** X6: Whatever the page answers, [login] leaves the object as it is and does
    nothing on the browser but this: it waits for the two navigations,
    clicks the three elements of the form, types the configured username
    into the username field and the configured password into the password
    field, calls the solver, reads the URL and logs.  It launches nothing,
    opens no page, navigates nowhere and registers no plugin. *)
Theorem login_stays_on_page (w : World) (s : state) :
  exists evs,
    this (snd (login w s)) = this s
    /\ trace (snd (login w s)) = (trace s ++ evs)%list
    /\ Forall (loginEvent (this s)) evs.
Proof.
  destruct (stays_executor w {| this := this s; trace := trace s; promise := Pending |})
    as (evs & H & Hall).
  exists evs. unfold login. cbn [snd]. rewrite H. cbn. repeat split. exact Hall.
Qed.

(** ** The outcomes of login *)

Lemma first_settlement_allowed (b : BrowsingSession) (evs : list event) :
  Forall (loginEvent b) evs ->
  hd Pending (settlements evs) = Pending
  \/ (hd Pending (settlements evs) = Fulfilled LOGIN_SUCCESS
      /\ exists pg, page b = Some pg /\ url pg = dashboard)
  \/ exists reason, In reason failureReasons /\ hd Pending (settlements evs) = Rejected reason.
Proof.
  induction 1 as [| e evs He _ IH]; [now left |].
  destruct e; simpl in *; try exact IH.
  - destruct He as [-> Hpg]. right. left. now split.
  - right. right. now exists reason.
Qed.

(** X7: The promise of [login] is fulfilled only with LOGIN_SUCCESS, and only
    when the page is at the dashboard URL; it is rejected only with one of
    six reasons, five names of the enumeration and the text of line 153;
    otherwise it is still pending. *)
Theorem login_outcomes (w : World) (s : state) :
  fst (login w s) = Pending
  \/ (fst (login w s) = Fulfilled LOGIN_SUCCESS
      /\ exists pg, page (this s) = Some pg /\ url pg = dashboard)
  \/ exists reason,
       In reason ["USERNAME_FIELD_RELATED"; "PASSWORD_FIELD_RELATED";
                  "Failed to solve captcha"; "CAPTCHA_FIELD_RELATED";
                  "INVALID_CREDENTIALS"; "PAGE_OTHER_ERROR"]
       /\ fst (login w s) = Rejected reason.
Proof.
  destruct (stays_executor w {| this := this s; trace := trace s; promise := Pending |})
    as (evs & H & Hall).
  assert (Hfst : fst (login w s) = hd Pending (settlements evs)).
  { unfold login. cbn [fst snd]. rewrite H. cbn. apply firstSettled_hd. }
  rewrite Hfst. exact (first_settlement_allowed (this s) evs Hall).
Qed.

(** X8: With no page, [login] does nothing at all and its promise never
    settles. *)
Theorem login_without_page (w : World) (s : state) :
  page (this s) = None ->
  fst (login w s) = Pending
  /\ this (snd (login w s)) = this s
  /\ trace (snd (login w s)) = trace s.
Proof.
  intros H. unfold login, executor, onPage. cbn [fst snd this]. rewrite H.
  repeat split.
Qed.

Lemma login_without_page_witness :
  fst (login (worldWith (pageAt dashboard)) (freshSession someLogin None false)) = Pending.
Proof.
  apply (login_without_page (worldWith (pageAt dashboard))
                            (freshSession someLogin None false)).
  reflexivity.
Defined.

(** X9: When the wait for the idle network throws, the promise is rejected
    with PAGE_OTHER_ERROR and no element of the page is touched. *)
Theorem idle_failure_is_page_error (w : World) (s : state) (pg : Page) (e : string) :
  page (this s) = Some pg ->
  waitForNavigation pg (Some "networkidle0") = Rejected e ->
  fst (login w s) = Rejected "PAGE_OTHER_ERROR"
  /\ trace (snd (login w s)) =
     (trace s ++ [WaitForNavigation (Some "networkidle0"); Reject "PAGE_OTHER_ERROR"])%list.
Proof.
  intros Hp Hw. unfold login, executor, onPage. cbn [fst snd this]. rewrite Hp.
  unfold catch, bind, perform. rewrite Hw. cbn.
  split; [reflexivity | now rewrite <- app_assoc].
Qed.

Lemma idle_failure_is_page_error_witness :
  fst (login (worldWith pageNeverIdle) (sessionOn pageNeverIdle someLogin None))
  = Rejected "PAGE_OTHER_ERROR".
Proof.
  apply (idle_failure_is_page_error
           (worldWith pageNeverIdle) (sessionOn pageNeverIdle someLogin None) pageNeverIdle
           "TimeoutError: Navigation timeout of 30000 ms exceeded").
  - reflexivity.
  - reflexivity.
Defined.

(** ** Login: the other failures *)

Lemma enterPassword_fails (s : state) (pg : Page) :
  page (this s) = Some pg ->
  promise s = Pending ->
  fieldFails pg "input[name=password]" (password (loginOptions (this s))) ->
  promise (snd (enterPassword s)) = Rejected "PASSWORD_FIELD_RELATED".
Proof.
  intros Hp Hs Hf. unfold enterPassword, onPage. rewrite Hp.
  unfold catch, fillField, bind, perform, onPage, reject.
  destruct Hf as [[reason Hc] | [Hc [reason Ht]]]; rewrite Hc; cbn [this record].
  - cbn. now rewrite Hs.
  - rewrite Hp, Ht. cbn. now rewrite Hs.
Qed.

(** X10: When the username is entered and the interaction with the password
    field throws, the promise is rejected with PASSWORD_FIELD_RELATED,
    whatever happens afterwards. *)
Theorem password_failure_outcome (w : World) (s : state) (pg : Page) :
  page (this s) = Some pg ->
  pageIdle pg ->
  fieldFilled pg "input[name=username]" (username (loginOptions (this s))) ->
  fieldFails pg "input[name=password]" (password (loginOptions (this s))) ->
  fst (login w s) = Rejected "PASSWORD_FIELD_RELATED".
Proof.
  intros Hp Hidle Hu Hf.
  rewrite login_is_promise, (login_after_idle w s pg Hp Hidle).
  set (s1 := record _ _).
  assert (Hgoal : promise (snd (afterIdle w s1)) = Rejected "PASSWORD_FIELD_RELATED").
  { unfold afterIdle. unfold bind at 1.
    rewrite (enterUsername_ok s1 pg Hp Hu).
    set (s2 := record _ (record _ s1)).
    pose proof (enterPassword_fails s2 pg Hp eq_refl Hf) as Hpw.
    rewrite bind_keeps_settled; [exact Hpw | | rewrite Hpw; discriminate].
    intros _. apply afterPassword_settlesInOrder. }
  rewrite catch_keeps_settled;
    [exact Hgoal | apply reject_settles_handlers | rewrite Hgoal; discriminate].
Qed.

Lemma password_failure_outcome_witness :
  fst (login (worldWith (pageWithout "input[name=password]" dashboard))
             (sessionOn (pageWithout "input[name=password]" dashboard)
                        someLogin (Some capmonster)))
  = Rejected "PASSWORD_FIELD_RELATED".
Proof.
  apply (password_failure_outcome
           (worldWith (pageWithout "input[name=password]" dashboard))
           (sessionOn (pageWithout "input[name=password]" dashboard)
                      someLogin (Some capmonster))
           (pageWithout "input[name=password]" dashboard)).
  - reflexivity.
  - reflexivity.
  - split; reflexivity.
  - left. eexists. reflexivity.
Defined.

(** X11: When both fields are filled and the captcha is solved but the
    submission throws, at the click or at the wait for the navigation, the
    promise is rejected with CAPTCHA_FIELD_RELATED, whatever the URL. *)
Theorem submit_failure_outcome (w : World) (s : state) (pg : Page) :
  page (this s) = Some pg ->
  pageIdle pg ->
  fieldFilled pg "input[name=username]" (username (loginOptions (this s))) ->
  fieldFilled pg "input[name=password]" (password (loginOptions (this s))) ->
  captchaSolved pg (captchaOptions (this s)) ->
  submitFails pg ->
  fst (login w s) = Rejected "CAPTCHA_FIELD_RELATED".
Proof.
  intros Hp Hidle [Hu1 Hu2] [Hp1 Hp2] (c & res & Hc & Hid & Hsol) Hsub.
  destruct s as [[lo se pgo co d] tr pr]. cbn in Hp, Hu2, Hp2, Hc. subst pgo co.
  unfold pageIdle in Hidle.
  open_login.
  answer Hidle. answer Hu1. answer Hu2. answer Hp1. answer Hp2.
  rewrite Hid, (strictEq_true _ _ eq_refl).
  answer Hsol. rewrite ?log_eq. cbn -[log lineOf String.eqb].
  destruct Hsub as [[e He] | [e He]]; rewrite He.
  - destruct (click pg "button[type=submit]") as [[] | e' |]; cbn -[String.eqb];
      destruct (String.eqb (url pg) dashboard); reflexivity.
  - destruct (waitForNavigation pg None) as [[] | e' |]; cbn -[String.eqb];
      destruct (String.eqb (url pg) dashboard); reflexivity.
Qed.

Lemma submit_failure_outcome_witness :
  fst (login (worldWith (pageWithout "button[type=submit]" dashboard))
             (sessionOn (pageWithout "button[type=submit]" dashboard)
                        someLogin (Some capmonster)))
  = Rejected "CAPTCHA_FIELD_RELATED".
Proof.
  apply (submit_failure_outcome
           (worldWith (pageWithout "button[type=submit]" dashboard))
           (sessionOn (pageWithout "button[type=submit]" dashboard)
                      someLogin (Some capmonster))
           (pageWithout "button[type=submit]" dashboard)).
  - reflexivity.
  - reflexivity.
  - split; reflexivity.
  - split; reflexivity.
  - exists capmonster, {| captchas := 1; solved := 1 |}. repeat split.
  - right. eexists. reflexivity.
Defined.

(** ** solveCaptchas: errors stay inside *)

(** X16: [solveCaptchas] never throws: whatever the configuration and whatever
    the solver does, its promise is not rejected. *)
Theorem solveCaptchas_never_throws
        (w : World) (pg : option Page) (options : option CaptchaOptions) (s : state)
        (e : string) :
  fst (solveCaptchas w pg options s) <> Rejected e.
Proof.
  unfold solveCaptchas. destruct options as [c |]; [| discriminate].
  destruct (strictEq (id c) (VStr "capmonster")).
  - unfold bind, catch, perform. rewrite log_eq. cbn -[log lineOf].
    destruct pg as [p |]; [| discriminate].
    cbn -[log lineOf].
    destruct (solveRecaptchas p) as [res | err |]; cbn -[log lineOf];
      rewrite ?log_eq; discriminate.
  - destruct (strictEq (id c) (VStr "2captcha")); [discriminate |].
    unfold bind. rewrite log_eq. discriminate.
Qed.

(** X17: With capmonster configured, an error of the solver is logged at level
    error and swallowed: the result is absent. *)
Theorem solver_error_is_logged (w : World) (pg : Page) (c : CaptchaOptions) (s : state)
        (e : string) :
  id c = VStr "capmonster" ->
  solveRecaptchas pg = Rejected e ->
  fst (solveCaptchas w (Some pg) (Some c) s) = Fulfilled None
  /\ trace (snd (solveCaptchas w (Some pg) (Some c) s)) =
     (trace s ++
      [Console console_log
         (lineOf "LOG" (toLocaleTimeString w (length (trace s))) "CaptchaSolver"
                 "Solving captcha with CapMonster");
       SolveRecaptchas;
       Console console_error
         (lineOf "ERROR" (toLocaleTimeString w (length (trace s) + 2)) "CaptchaSolver" e)])%list.
Proof.
  intros Hid He. unfold solveCaptchas. rewrite (strictEq_true _ _ Hid).
  unfold bind, catch, perform. rewrite log_eq. cbn -[log lineOf].
  rewrite He. cbn -[log lineOf]. rewrite log_eq. cbn.
  split; [reflexivity |].
  rewrite !length_app. cbn. rewrite <- !app_assoc. cbn.
  now replace (length (trace s) + 1 + 1) with (length (trace s) + 2) by lia.
Qed.

Lemma solver_error_is_logged_witness :
  fst (solveCaptchas (worldWith pageUnsolved) (Some pageUnsolved) (Some capmonster)
                     (sessionOn pageUnsolved someLogin (Some capmonster)))
  = Fulfilled None.
Proof.
  apply (solver_error_is_logged
           (worldWith pageUnsolved) pageUnsolved capmonster
           (sessionOn pageUnsolved someLogin (Some capmonster))
           "ERROR_KEY_DOES_NOT_EXIST").
  - reflexivity.
  - reflexivity.
Defined.

(** ** Login settles when the page answers *)

Lemma bind_fulfilled {A B} (p : Async A) (k : A -> Async B) (s : state) (a : A) :
  fst (p s) = Fulfilled a -> bind p k s = k a (snd (p s)).
Proof. unfold bind. destruct (p s) as [r s']. cbn. now intros ->. Qed.

Lemma bind_not_pending {A B} (p : Async A) (k : A -> Async B) (s : state) :
  fst (p s) <> Pending ->
  (forall a, fst (k a (snd (p s))) <> Pending) ->
  fst (bind p k s) <> Pending.
Proof.
  unfold bind. destruct (p s) as [[a | e |] s']; cbn; intros Hp Hk;
    [apply Hk | discriminate | now elim Hp].
Qed.

Lemma catch_reject_returns (p : Async unit) (reason : string) (s : state) :
  fst (p s) <> Pending ->
  fst (catch p (fun _ => reject reason) s) = Fulfilled tt.
Proof.
  unfold catch. destruct (p s) as [[[] | e |] s']; cbn; intros H;
    [reflexivity | reflexivity | now elim H].
Qed.

Lemma reject_settled (reason : string) (s : state) :
  promise (snd (reject reason s)) <> Pending.
Proof. unfold reject, settleWith. cbn. destruct (promise s); discriminate. Qed.

Lemma fillField_not_pending (selector : string) (text : value) (pg : Page) (s : state) :
  page (this s) = Some pg ->
  responsive pg ->
  fst (fillField selector text pg s) <> Pending.
Proof.
  intros Hp (_ & Hc & Ht & _). unfold fillField. apply bind_not_pending.
  - apply Hc.
  - intros _. cbn [snd perform]. unfold onPage. cbn [this record]. rewrite Hp. apply Ht.
Qed.

Lemma enterUsername_returns (s : state) (pg : Page) :
  page (this s) = Some pg -> responsive pg -> fst (enterUsername s) = Fulfilled tt.
Proof.
  intros Hp Hr. unfold enterUsername, onPage. rewrite Hp.
  apply catch_reject_returns. now apply fillField_not_pending.
Qed.

Lemma enterPassword_returns (s : state) (pg : Page) :
  page (this s) = Some pg -> responsive pg -> fst (enterPassword s) = Fulfilled tt.
Proof.
  intros Hp Hr. unfold enterPassword, onPage. rewrite Hp.
  apply catch_reject_returns. now apply fillField_not_pending.
Qed.

Lemma solveCaptchas_not_pending (w : World) (pg : Page) options (s : state) :
  responsive pg -> fst (solveCaptchas w (Some pg) options s) <> Pending.
Proof.
  intros (_ & _ & _ & Hs). unfold solveCaptchas.
  destruct options as [c |]; [| discriminate].
  destruct (strictEq (id c) (VStr "capmonster")).
  - unfold bind, catch, perform. rewrite log_eq. cbn -[log lineOf].
    destruct (solveRecaptchas pg) as [res | err |]; cbn -[log lineOf];
      rewrite ?log_eq; try discriminate. now elim Hs.
  - destruct (strictEq (id c) (VStr "2captcha")); [discriminate |].
    unfold bind. rewrite log_eq. discriminate.
Qed.

Lemma announceAndSubmit_not_pending (w : World) (s : state) (pg : Page) :
  page (this s) = Some pg -> responsive pg -> fst (announceAndSubmit w s) <> Pending.
Proof.
  intros Hp (Hw & Hc & _ & _). unfold announceAndSubmit. apply bind_not_pending.
  - rewrite log_eq. discriminate.
  - intros _. rewrite log_eq. cbn [snd].
    unfold promiseAll, onPage, perform. cbn [this record]. rewrite Hp. cbn [this record].
    rewrite Hp. specialize (Hw None). specialize (Hc "button[type=submit]").
    destruct (waitForNavigation pg None) as [[] | e |];
      destruct (click pg "button[type=submit]") as [[] | e' |]; cbn;
      congruence.
Qed.

Lemma solveAndSubmit_returns (w : World) (s : state) (pg : Page) :
  page (this s) = Some pg -> responsive pg -> fst (solveAndSubmit w s) = Fulfilled tt.
Proof.
  intros Hp Hr. unfold solveAndSubmit. rewrite Hp.
  apply catch_reject_returns. apply bind_not_pending.
  - now apply solveCaptchas_not_pending.
  - intros solution.
    assert (Hp' : page (this (snd (solveCaptchas w (Some pg) (captchaOptions (this s)) s)))
                  = Some pg).
    { rewrite (stays_this _ _ (stays_solveCaptchas w (Some pg) (captchaOptions (this s)) s)).
      exact Hp. }
    unfold afterCaptcha. apply bind_not_pending.
    + destruct solution; discriminate.
    + intros _. apply (announceAndSubmit_not_pending w _ pg); [| exact Hr].
      destruct solution; cbn; exact Hp'.
Qed.

Lemma checkUrl_returns (s : state) : fst (checkUrl s) = Fulfilled tt.
Proof.
  unfold checkUrl. destruct (page (this s)) as [pg |]; [| reflexivity].
  unfold bind, perform. cbn. destruct (String.eqb (url pg) dashboard); reflexivity.
Qed.

Lemma afterIdle_settles (w : World) (s : state) (pg : Page) :
  page (this s) = Some pg -> responsive pg -> promise (snd (afterIdle w s)) <> Pending.
Proof.
  intros Hp Hr. unfold afterIdle.
  rewrite (bind_fulfilled _ _ _ tt (enterUsername_returns s pg Hp Hr)).
  assert (Hp2 : page (this (snd (enterUsername s))) = Some pg)
    by (rewrite (stays_this _ _ (stays_enterUsername s)); exact Hp).
  rewrite (bind_fulfilled _ _ _ tt (enterPassword_returns _ pg Hp2 Hr)).
  assert (Hp3 : page (this (snd (enterPassword (snd (enterUsername s))))) = Some pg)
    by (rewrite (stays_this _ _ (stays_enterPassword _)); exact Hp2).
  rewrite (bind_fulfilled _ _ _ tt (solveAndSubmit_returns w _ pg Hp3 Hr)).
  rewrite (bind_fulfilled _ _ _ tt (checkUrl_returns _)).
  apply reject_settled.
Qed.

(** X12: On a page that answers every call, with success or with an error, the
    promise of [login] is settled when the executor ends. *)
Theorem login_settles (w : World) (s : state) (pg : Page) :
  page (this s) = Some pg ->
  responsive pg ->
  fst (login w s) <> Pending.
Proof.
  intros Hp Hr. rewrite login_is_promise.
  unfold login, executor, onPage. cbn [fst snd this]. rewrite Hp.
  set (s0 := {| this := this s; trace := trace s; promise := Pending |}).
  destruct Hr as (Hw & Hrest). pose proof (Hw (Some "networkidle0")) as Hidle.
  unfold catch, bind at 1, perform.
  destruct (waitForNavigation pg (Some "networkidle0")) as [[] | e |]; [| | now elim Hidle].
  - pose proof (afterIdle_settles w (record (WaitForNavigation (Some "networkidle0")) s0) pg
                  Hp (conj Hw Hrest)) as Hsettled.
    destruct (afterIdle w (record (WaitForNavigation (Some "networkidle0")) s0))
      as [[[] | e |] s1]; cbn [snd] in *; try exact Hsettled.
    unfold reject, settleWith. cbn. destruct (promise s1); congruence.
  - apply reject_settled.
Qed.

Lemma login_settles_witness :
  fst (login (worldWith pageUnsolved) (sessionOn pageUnsolved someLogin (Some capmonster)))
  <> Pending.
Proof.
  apply (login_settles (worldWith pageUnsolved)
                       (sessionOn pageUnsolved someLogin (Some capmonster)) pageUnsolved).
  - reflexivity.
  - repeat split; intros; discriminate.
Defined.

(** ** run, step by step *)

Lemma run_eq (w : World) (s : state) :
  run w s =
  match launch w (negb (debug (this s))) with
  | Fulfilled b =>
      match newPage b with
      | Fulfilled pg =>
          match goto pg dashboard with
          | Fulfilled _ => reportLogin w (login w (runOpened w b pg s))
          | Rejected e => log w e "Page" (Some error) (runOpened w b pg s)
          | Pending => (Pending, runOpened w b pg s)
          end
      | Rejected e => (Rejected e, runLaunched w b s)
      | Pending => (Pending, runLaunched w b s)
      end
  | Rejected e => (Rejected e, runStarted w s)
  | Pending => (Pending, runStarted w s)
  end.
Proof.
  unfold run, bind at 1, emit. unfold bind at 1. rewrite log_eq.
  assert (H1 : length (trace (record (Call "run") s)) = length (trace s) + 1)
    by (cbn; now rewrite length_app).
  rewrite H1. unfold bind at 1, perform at 1. cbn [this record].
  fold (runStarted w s).
  destruct (launch w (negb (debug (this s)))) as [b | e |]; try reflexivity.
  unfold bind at 1. unfold bind at 1. rewrite log_eq.
  assert (H3 : length (trace (setSession b (runStarted w s))) = length (trace s) + 3)
    by (cbn; rewrite !length_app; cbn; lia).
  rewrite H3. unfold bind at 1, perform at 1.
  fold (runLaunched w b s).
  destruct (newPage b) as [pg | e |]; try reflexivity.
  unfold bind at 1. unfold catch at 1. unfold bind at 1, perform at 1.
  fold (runOpened w b pg s).
  destruct (goto pg dashboard) as [[] | e |]; try reflexivity.
  unfold catch, bind, reportLogin.
  destruct (login w (runOpened w b pg s)) as [[r | reason |] s7]; reflexivity.
Qed.

Lemma runStarted_trace (w : World) (s : state) :
  trace (runStarted w s) =
  (trace s ++
   [Call "run";
    Console console_log
      (lineOf "LOG" (toLocaleTimeString w (length (trace s) + 1))
              "BrowsingSession" "Starting browsing session");
    Launch (negb (debug (this s)))])%list.
Proof. unfold runStarted. cbn. now rewrite <- !app_assoc. Qed.

Lemma runLaunched_trace (w : World) (b : Browser) (s : state) :
  trace (runLaunched w b s) =
  (trace s ++
   [Call "run";
    Console console_log
      (lineOf "LOG" (toLocaleTimeString w (length (trace s) + 1))
              "BrowsingSession" "Starting browsing session");
    Launch (negb (debug (this s)));
    Console console_log
      (lineOf "LOG" (toLocaleTimeString w (length (trace s) + 3))
              "BrowsingSession" "Session started, continuing to open page");
    NewPage])%list.
Proof. unfold runLaunched, runStarted. cbn. now rewrite <- !app_assoc. Qed.

Lemma runOpened_trace (w : World) (b : Browser) (pg : Page) (s : state) :
  trace (runOpened w b pg s) =
  (trace s ++
   [Call "run";
    Console console_log
      (lineOf "LOG" (toLocaleTimeString w (length (trace s) + 1))
              "BrowsingSession" "Starting browsing session");
    Launch (negb (debug (this s)));
    Console console_log
      (lineOf "LOG" (toLocaleTimeString w (length (trace s) + 3))
              "BrowsingSession" "Session started, continuing to open page");
    NewPage;
    Goto "https://autofaucet.org/dashboard"])%list.
Proof. unfold runOpened, runLaunched, runStarted. cbn. now rewrite <- !app_assoc. Qed.

(** X19: When the browser cannot be launched, [run] rejects with the launch
    error right after the launch call: the object is unchanged, no page is
    opened and nothing more is logged. *)
Theorem run_launch_failure (w : World) (s : state) (e : string) :
  launch w (negb (debug (this s))) = Rejected e ->
  fst (run w s) = Rejected e
  /\ this (snd (run w s)) = this s
  /\ trace (snd (run w s)) =
     (trace s ++
      [Call "run";
       Console console_log
         (lineOf "LOG" (toLocaleTimeString w (length (trace s) + 1))
                 "BrowsingSession" "Starting browsing session");
       Launch (negb (debug (this s)))])%list.
Proof.
  intros H. rewrite run_eq, H. cbn [fst snd].
  split; [reflexivity | split; [reflexivity | apply runStarted_trace]].
Qed.

Lemma run_launch_failure_witness :
  fst (run worldWithoutBrowser (freshSession someLogin None false))
  = Rejected "Failed to launch the browser process".
Proof.
  apply (run_launch_failure worldWithoutBrowser (freshSession someLogin None false)
                            "Failed to launch the browser process").
  reflexivity.
Defined.

(** X20: When the browser is launched but the page cannot be opened, [run]
    rejects with that error: the browser handle is stored, the page field
    is left as it was, and no navigation is attempted. *)
Theorem run_newPage_failure (w : World) (s : state) (b : Browser) (e : string) :
  launch w (negb (debug (this s))) = Fulfilled b ->
  newPage b = Rejected e ->
  fst (run w s) = Rejected e
  /\ session (this (snd (run w s))) = Some b
  /\ page (this (snd (run w s))) = page (this s)
  /\ (forall target, ~ In (Goto target) (skipn (length (trace s)) (trace (snd (run w s))))).
Proof.
  intros Hl Hn. rewrite run_eq, Hl, Hn. cbn [fst snd].
  split; [reflexivity | split; [reflexivity | split; [reflexivity |]]].
  intros target. rewrite runLaunched_trace, skipn_app, skipn_all, Nat.sub_diag. cbn.
  intros H. repeat (destruct H as [H | H]; [discriminate H |]). exact H.
Qed.

Lemma run_newPage_failure_witness :
  fst (run worldWithoutPage (freshSession someLogin None false)) = Rejected "Target closed".
Proof.
  apply (run_newPage_failure worldWithoutPage (freshSession someLogin None false)
                             {| newPage := Rejected "Target closed" |} "Target closed").
  - reflexivity.
  - reflexivity.
Defined.

(** X21: When the navigation to the dashboard fails, [login] is not attempted:
    the error is logged at level error with source Page, and [run] ends
    normally with both handles stored. *)
Theorem run_goto_failure (w : World) (s : state) (b : Browser) (pg : Page) (e : string) :
  launch w (negb (debug (this s))) = Fulfilled b ->
  newPage b = Fulfilled pg ->
  goto pg "https://autofaucet.org/dashboard" = Rejected e ->
  fst (run w s) = Fulfilled tt
  /\ session (this (snd (run w s))) = Some b
  /\ page (this (snd (run w s))) = Some pg
  /\ trace (snd (run w s)) =
     (trace s ++
      [Call "run";
       Console console_log
         (lineOf "LOG" (toLocaleTimeString w (length (trace s) + 1))
                 "BrowsingSession" "Starting browsing session");
       Launch (negb (debug (this s)));
       Console console_log
         (lineOf "LOG" (toLocaleTimeString w (length (trace s) + 3))
                 "BrowsingSession" "Session started, continuing to open page");
       NewPage;
       Goto "https://autofaucet.org/dashboard";
       Console console_error
         (lineOf "ERROR" (toLocaleTimeString w (length (trace s) + 6)) "Page" e)])%list.
Proof.
  intros Hl Hn Hg. rewrite run_eq, Hl, Hn. unfold dashboard. rewrite Hg.
  rewrite log_eq. cbn [fst snd].
  split; [reflexivity | split; [reflexivity | split; [reflexivity |]]].
  cbn [trace record]. fold dashboard. rewrite runOpened_trace.
  rewrite length_app. cbn [length]. rewrite <- app_assoc. reflexivity.
Qed.

Lemma run_goto_failure_witness :
  fst (run (worldWith pageUnreachable) (freshSession someLogin None false)) = Fulfilled tt.
Proof.
  apply (run_goto_failure (worldWith pageUnreachable) (freshSession someLogin None false)
                          {| newPage := Fulfilled pageUnreachable |} pageUnreachable
                          "net::ERR_NAME_NOT_RESOLVED").
  - reflexivity.
  - reflexivity.
  - reflexivity.
Defined.

(** ** run and the outcome of login *)




(** ** run: what it starts, keeps and never throws *)

Lemma quiet_refl s : addsQuiet s s.
Proof. exists []. split; [now rewrite app_nil_r | constructor]. Qed.

Lemma quiet_trans a b c : addsQuiet a b -> addsQuiet b c -> addsQuiet a c.
Proof.
  intros (e1 & H1 & Q1) (e2 & H2 & Q2). exists (e1 ++ e2)%list. split.
  - now rewrite H2, H1, app_assoc.
  - apply Forall_app. now split.
Qed.

Lemma quiet_record e s : quiet e -> addsQuiet s (record e s).
Proof. intros H. exists [e]. split; [reflexivity | constructor; [exact H | constructor]]. Qed.

Lemma quiet_log (w : World) message from lvl (s : state) :
  addsQuiet s (snd (log w message from lvl s)).
Proof.
  rewrite log_eq. cbn [snd]. destruct lvl as [[| |] |]; apply quiet_record; exact I.
Qed.

Lemma loginEvent_quiet (b : BrowsingSession) (e : event) : loginEvent b e -> quiet e.
Proof. destruct e; simpl; tauto. Qed.

Lemma quiet_login (w : World) (s : state) : addsQuiet s (snd (login w s)).
Proof.
  destruct (stays_executor w {| this := this s; trace := trace s; promise := Pending |})
    as (evs & H & Hall).
  exists evs. unfold login. cbn [snd]. rewrite H. cbn. split; [reflexivity |].
  eapply Forall_impl; [| exact Hall]. apply loginEvent_quiet.
Qed.

Lemma reportLogin_quiet (w : World) (r : outcome LoginResults * state) :
  addsQuiet (snd r) (snd (reportLogin w r)).
Proof.
  unfold reportLogin. destruct (fst r); try apply quiet_log. apply quiet_refl.
Qed.

Lemma reportLogin_this (w : World) (r : outcome LoginResults * state) :
  this (snd (reportLogin w r)) = this (snd r).
Proof. unfold reportLogin. destruct (fst r); rewrite ?log_eq; reflexivity. Qed.

Lemma reportLogin_not_rejected (w : World) (r : outcome LoginResults * state) (e : string) :
  fst (reportLogin w r) <> Rejected e.
Proof. unfold reportLogin. destruct (fst r); rewrite ?log_eq; discriminate. Qed.

Lemma login_this (w : World) (s : state) : this (snd (login w s)) = this s.
Proof.
  destruct (stays_executor w {| this := this s; trace := trace s; promise := Pending |})
    as (evs & H & _).
  unfold login. cbn [snd]. now rewrite H.
Qed.

Lemma run_after_launch_quiet (w : World) (s : state) :
  addsQuiet (runStarted w s) (snd (run w s)).
Proof.
  rewrite run_eq.
  destruct (launch w (negb (debug (this s)))) as [b | e |]; try apply quiet_refl.
  assert (Hl : addsQuiet (runStarted w s) (runLaunched w b s)).
  { unfold runLaunched.
    eapply quiet_trans; [| apply quiet_record; exact I].
    eapply quiet_trans; [| apply quiet_record; exact I].
    exists []. split; [cbn; now rewrite app_nil_r | constructor]. }
  destruct (newPage b) as [pg | e |]; try exact Hl.
  assert (Ho : addsQuiet (runStarted w s) (runOpened w b pg s)).
  { unfold runOpened.
    eapply quiet_trans; [exact Hl |].
    eapply quiet_trans; [| apply quiet_record; exact I].
    exists []. split; [cbn; now rewrite app_nil_r | constructor]. }
  destruct (goto pg dashboard) as [[] | e |]; cbn [snd].
  - eapply quiet_trans; [exact Ho |].
    eapply quiet_trans; [apply quiet_login | apply reportLogin_quiet].
  - eapply quiet_trans; [exact Ho | apply quiet_log].
  - exact Ho.
Qed.

(** X23: [run] launches exactly one browser, right after the line that logs
    its start and headless exactly when debug is off; whatever happens
    afterwards, it launches no second one and registers no plugin. *)
Theorem run_launches_once (w : World) (s : state) :
  exists line evs,
    trace (snd (run w s)) =
    (trace s ++ Call "run" :: Console console_log line
             :: Launch (negb (debug (this s))) :: evs)%list
    /\ Forall quiet evs.
Proof.
  destruct (run_after_launch_quiet w s) as (evs & H & Q).
  eexists. exists evs. split; [| exact Q].
  rewrite H, runStarted_trace, <- app_assoc. reflexivity.
Qed.

(** X24: Once the browser is launched and the page opened, [run] never
    rejects: a failing navigation and a rejected login are logged, not
    thrown. *)
Theorem run_never_rejects_after_open
        (w : World) (s : state) (b : Browser) (pg : Page) (e : string) :
  launch w (negb (debug (this s))) = Fulfilled b ->
  newPage b = Fulfilled pg ->
  fst (run w s) <> Rejected e.
Proof.
  intros Hl Hn. rewrite run_eq, Hl, Hn.
  destruct (goto pg dashboard) as [[] | e' |].
  - apply reportLogin_not_rejected.
  - rewrite log_eq. discriminate.
  - discriminate.
Qed.

Lemma run_never_rejects_after_open_witness :
  fst (run (worldWith pageUnsolved) (freshSession someLogin (Some capmonster) false))
  <> Rejected "Failed to solve captcha".
Proof.
  apply (run_never_rejects_after_open
           (worldWith pageUnsolved) (freshSession someLogin (Some capmonster) false)
           {| newPage := Fulfilled pageUnsolved |} pageUnsolved "Failed to solve captcha").
  - reflexivity.
  - reflexivity.
Defined.

(** X25: Once the browser is launched and the page opened, both handles are
    stored in the object and stay there to the end of [run], while the
    configuration is as before. *)
Theorem run_stores_handles (w : World) (s : state) (b : Browser) (pg : Page) :
  launch w (negb (debug (this s))) = Fulfilled b ->
  newPage b = Fulfilled pg ->
  this (snd (run w s)) =
  {| loginOptions := loginOptions (this s);
     session := Some b;
     page := Some pg;
     captchaOptions := captchaOptions (this s);
     debug := debug (this s) |}.
Proof.
  intros Hl Hn. rewrite run_eq, Hl, Hn.
  destruct (goto pg dashboard) as [[] | e' |].
  - rewrite reportLogin_this, login_this. reflexivity.
  - rewrite log_eq. reflexivity.
  - reflexivity.
Qed.

Lemma run_stores_handles_witness :
  page (this (snd (run (worldWith pageUnreachable) (freshSession someLogin None true))))
  = Some pageUnreachable.
Proof.
  rewrite (run_stores_handles (worldWith pageUnreachable) (freshSession someLogin None true)
                              {| newPage := Fulfilled pageUnreachable |} pageUnreachable
                              eq_refl eq_refl).
  reflexivity.
Defined.

(** ** The constructor on every configuration *)



Lemma validateLoginAndRun_valid (w : World) (s : state) :
  Validate.nonNullEmpty [username (loginOptions (this s)); password (loginOptions (this s))]
  = true ->
  exists line line' evs,
    trace (snd (validateLoginAndRun w s)) =
    (trace s ++ Console console_log line :: Call "run" :: Console console_log line'
             :: Launch (negb (debug (this s))) :: evs)%list
    /\ Forall quiet evs.
Proof.
  intros H. unfold validateLoginAndRun. rewrite H. cbn [negb].
  unfold bind. rewrite log_eq. unfold detach. cbn [snd].
  destruct (run_after_launch_quiet w
              (record (Console console_log
                         (lineOf "LOG" (toLocaleTimeString w (length (trace s))) "Login"
                                 "Login options set, continuing to run browsing session")) s))
    as (evs & Ht & Q).
  do 2 eexists. exists evs. split; [| exact Q].
  rewrite Ht, runStarted_trace. cbn [trace record this]. rewrite <- !app_assoc. reflexivity.
Qed.

Lemma not_launch_in_quiet (evs : list event) (h : bool) :
  Forall quiet evs -> ~ In (Launch h) evs.
Proof.
  intros Q H. rewrite Forall_forall in Q. exact (Q _ H).
Qed.

Lemma not_plugin_in_quiet (evs : list event) (i t : value) (v : bool) :
  Forall quiet evs -> ~ In (UsePlugin i t v) evs.
Proof.
  intros Q H. rewrite Forall_forall in Q. exact (Q _ H).
Qed.

(** X27: The constructor launches a browser exactly when the username, the
    password and, if a CAPTCHA configuration is given, its provider id and
    token are all present; the browser is headless exactly when the debug
    argument is false or omitted. *)
Theorem constructor_launches_iff_valid
        (w : World) (l : LoginOptions) (captcha : option CaptchaOptions) (dbg : option bool) :
  ((exists headless, In (Launch headless) (trace (snd (constructor w l captcha dbg))))
   <-> validLogin l /\ validCaptcha captcha)
  /\ (forall headless,
         In (Launch headless) (trace (snd (constructor w l captcha dbg))) ->
         headless = negb (match dbg with Some b => b | None => false end)).
Proof.
  assert (Hlogin : Validate.nonNullEmpty [username l; password l] = true <-> validLogin l).
  { unfold validLogin.
    destruct (Validate.nonNullEmpty [username l; password l]) eqn:E.
    - split; [intros _ | reflexivity].
      assert (~ (absent (username l) \/ absent (password l)))
        by (rewrite <- nonNullEmpty_pair; congruence).
      tauto.
    - apply nonNullEmpty_pair in E. split; [discriminate | tauto]. }
  unfold constructor, construct. cbn [captchaOptions this].
  set (d := match dbg with Some b => b | None => false end).
  destruct captcha as [c |].
  - destruct (Validate.nonNullEmpty [id c; token c]) eqn:Hc; cbn [negb].
    + assert (Hvalid : validCaptcha (Some c)).
      { cbn. assert (~ (absent (id c) \/ absent (token c)))
          by (rewrite <- nonNullEmpty_pair; congruence). tauto. }
      unfold bind, emit. rewrite log_eq.
      set (s2 := record _ (record _ _)).
      destruct (Validate.nonNullEmpty [username l; password l]) eqn:Hl.
      * destruct (validateLoginAndRun_valid w s2 Hl) as (line & line' & evs & Ht & Q).
        cbn [snd]. rewrite Ht. cbn. split.
        -- split; [intros _; split; [now apply Hlogin | exact Hvalid] |].
           intros _. exists (negb d). do 5 right. now left.
        -- intros h [H | [H | [H | [H | [H | [H | H]]]]]]; try discriminate H.
           ++ now injection H as <-.
           ++ now elim (not_launch_in_quiet evs h Q).
      * rewrite (validateLoginAndRun_invalid w s2 Hl). cbn. split.
        -- split.
           ++ intros [h [H | [H | [H | []]]]]; discriminate H.
           ++ intros [Hv _]. apply Hlogin in Hv. discriminate Hv.
        -- intros h [H | [H | [H | []]]]; discriminate H.
    + apply nonNullEmpty_pair in Hc. rewrite log_eq. cbn. split.
      * split.
        -- intros [h [H | []]]. discriminate H.
        -- intros [_ [Hi Ht]]. tauto.
      * intros h [H | []]. discriminate H.
  - set (s0 := {| this := _; trace := []; promise := Pending |}).
    destruct (Validate.nonNullEmpty [username l; password l]) eqn:Hl.
    + destruct (validateLoginAndRun_valid w s0 Hl) as (line & line' & evs & Ht & Q).
      rewrite Ht. cbn. split.
      * split; [intros _; split; [now apply Hlogin | exact I] |].
        intros _. exists (negb d). do 3 right. now left.
      * intros h [H | [H | [H | [H | H]]]]; try discriminate H.
        -- now injection H as <-.
        -- now elim (not_launch_in_quiet evs h Q).
    + rewrite (validateLoginAndRun_invalid w s0 Hl). cbn. split.
      * split.
        -- intros [h [H | []]]. discriminate H.
        -- intros [Hv _]. apply Hlogin in Hv. discriminate Hv.
      * intros h [H | []]. discriminate H.
Qed.

(** X28: With a CAPTCHA configuration whose provider id and token are present,
    the very first action of the constructor is to register the plugin,
    with that id and token and with the visual feedback flag taken as
    false when omitted; it is registered once, before any launch. *)
Theorem constructor_registers_plugin_first
        (w : World) (l : LoginOptions) (c : CaptchaOptions) (dbg : option bool) :
  ~ absent (id c) ->
  ~ absent (token c) ->
  exists rest,
    trace (snd (constructor w l (Some c) dbg)) =
    UsePlugin (id c) (token c) (match visualFeedback c with Some b => b | None => false end)
    :: rest
    /\ (forall i t v, ~ In (UsePlugin i t v) rest).
Proof.
  intros Hi Ht. unfold constructor, construct. cbn [captchaOptions this].
  assert (Hc : Validate.nonNullEmpty [id c; token c] = true).
  { destruct (Validate.nonNullEmpty [id c; token c]) eqn:E; [reflexivity |].
    apply nonNullEmpty_pair in E. tauto. }
  rewrite Hc. cbn [negb]. unfold bind, emit. rewrite log_eq.
  set (s2 := record _ (record _ _)).
  destruct (Validate.nonNullEmpty [username l; password l]) eqn:Hl.
  - destruct (validateLoginAndRun_valid w s2 Hl) as (line & line' & evs & Htr & Q).
    cbn [snd]. rewrite Htr. cbn. eexists. split; [reflexivity |].
    intros i t v [H | [H | [H | [H | [H | H]]]]]; try discriminate H.
    now elim (not_plugin_in_quiet evs i t v Q).
  - rewrite (validateLoginAndRun_invalid w s2 Hl). cbn. eexists. split; [reflexivity |].
    intros i t v [H | [H | []]]; discriminate H.
Qed.

Lemma constructor_registers_plugin_first_witness :
  exists rest,
    trace (snd (constructor (worldWith (pageAt dashboard)) someLogin (Some capmonster) None))
    = UsePlugin (VStr "capmonster") (VStr "key") false :: rest.
Proof.
  destruct (constructor_registers_plugin_first
              (worldWith (pageAt dashboard)) someLogin capmonster None)
    as (rest & H & _).
  - intros [H | [H | H]]; discriminate H.
  - intros [H | [H | H]]; discriminate H.
  - exists rest. exact H.
Defined.

(** X29: Without a CAPTCHA configuration the constructor never registers a
    plugin, whatever else it does. *)
Theorem constructor_without_captcha_registers_nothing
        (w : World) (l : LoginOptions) (dbg : option bool) (i t : value) (v : bool) :
  ~ In (UsePlugin i t v) (trace (snd (constructor w l None dbg))).
Proof.
  unfold constructor, construct. cbn [captchaOptions this].
  set (s0 := {| this := _; trace := []; promise := Pending |}).
  destruct (Validate.nonNullEmpty [username l; password l]) eqn:Hl.
  - destruct (validateLoginAndRun_valid w s0 Hl) as (line & line' & evs & Htr & Q).
    rewrite Htr. cbn.
    intros [H | [H | [H | [H | H]]]]; try discriminate H.
    now elim (not_plugin_in_quiet evs i t v Q).
  - rewrite (validateLoginAndRun_invalid w s0 Hl). cbn.
    intros [H | []]. discriminate H.
Qed.

(** ** Instances of the lemmas on failures *)

Lemma username_failure_goes_on_witness :
  fst (login (worldWith (pageWithout "input[name=username]" dashboard))
             (sessionOn (pageWithout "input[name=username]" dashboard) someLogin None))
  = Rejected "USERNAME_FIELD_RELATED".
Proof.
  apply (username_failure_goes_on
           (worldWith (pageWithout "input[name=username]" dashboard))
           (sessionOn (pageWithout "input[name=username]" dashboard) someLogin None)
           (pageWithout "input[name=username]" dashboard)).
  - reflexivity.
  - reflexivity.
  - left. eexists. reflexivity.
Defined.

Lemma unsolved_captcha_outcome_witness :
  fst (login (worldWith (pageAt dashboard)) (sessionOn (pageAt dashboard) someLogin (Some twoCaptcha)))
  = Rejected "Failed to solve captcha".
Proof.
  apply (unsolved_captcha_outcome
           (worldWith (pageAt dashboard))
           (sessionOn (pageAt dashboard) someLogin (Some twoCaptcha))
           (pageAt dashboard)).
  - reflexivity.
  - reflexivity.
  - split; reflexivity.
  - split; reflexivity.
  - left. discriminate.
Defined.
